(** * feed-and-sync-service-charm: the token ring of [src/charm.py]

    A shallow embedding of the charm's three handlers
    ([_on_config_changed], [_on_ping_receive_relation_changed],
    [_on_ping_action]) and of the relation bucket they read and write,
    followed by the properties of the token protocol.

    Python [int] is [Z]; Python [float] is the kernel's binary64 [float];
    [str] is [string].  A handler is a computation over the unit's state that
    leaves a trace of its effects (log lines, status changes, sleeps, bucket
    assignments) and ends normally, by [return], or by an exception. *)

From Stdlib Require Import ZArith String List Bool Lia.
From Stdlib Require Import Floats DecimalString.
Import ListNotations.

Open Scope string_scope.
Open Scope list_scope.
Open Scope Z_scope.

(* ================================================================= *)
(** ** Formatted strings *)

(** An f-string is kept as the sequence of its parts.  Integers and strings
    are rendered at once; a float part records the value and the format
    specification, its rendering being Python's own. *)
Inductive Piece : Type :=
| Text (s : string)            (* literal text, [{s}] and [{n}] *)
| FloatRepr (x : float)        (* [{x}] *)
| FloatFixed2 (x : float).     (* [{x:.2f}] *)

Definition fstring := list Piece.

(** [str(n)] of a Python integer. *)
Definition str_int (n : Z) : string := NilZero.string_of_int (Z.to_int n).

(** [str(v)] of an optional integer ([None] or an [int]). *)
Definition str_opt_int (v : option Z) : string :=
  match v with
  | None => "None"
  | Some n => str_int n
  end.

(** The text of an f-string, given Python's two float renderings. *)
Definition render (repr fixed2 : float -> string) (f : fstring) : string :=
  fold_right
    (fun p acc =>
       match p with
       | Text s => (s ++ acc)%string
       | FloatRepr x => (repr x ++ acc)%string
       | FloatFixed2 x => (fixed2 x ++ acc)%string
       end)
    "" f.

(* ================================================================= *)
(** ** The relation bucket (class [FeedAndSyncInterface]) *)

(** A unit's relation data: each key is absent or holds a value. *)
Record Bucket : Type := mkBucket {
  data_message : option string;
  data_origin : option string;
  data_next_holder : option string;
  data_cycles_complete : option Z;
  data_times_passed : option Z;
  data_times_received : option Z;
  data_time_elapsed : option float;
  data_timestamp : option float
}.

(** The bucket of a unit that has written nothing yet. *)
Definition empty_bucket : Bucket :=
  mkBucket None None None None None None None None.

Definition value_or {A : Type} (default : A) (o : option A) : A :=
  match o with
  | Some v => v
  | None => default
  end.

(** Reading a field: [Value(codec, default, ...)] yields the default when the
    key is absent. *)
Definition message (b : Bucket) : string := value_or "" (data_message b).
Definition origin (b : Bucket) : string := value_or "" (data_origin b).
Definition next_holder (b : Bucket) : string := value_or "" (data_next_holder b).
Definition cycles_complete (b : Bucket) : Z := value_or 0 (data_cycles_complete b).
Definition times_passed (b : Bucket) : Z := value_or 0 (data_times_passed b).
Definition times_received (b : Bucket) : Z := value_or 0 (data_times_received b).
Definition time_elapsed (b : Bucket) : float := value_or 0%float (data_time_elapsed b).
Definition timestamp (b : Bucket) : float := value_or 0%float (data_timestamp b).

(** An assignment [send_bucket.<field> = v]. *)
Inductive Assign : Type :=
| Set_message (v : string)
| Set_origin (v : string)
| Set_next_holder (v : string)
| Set_cycles_complete (v : Z)
| Set_times_passed (v : Z)
| Set_times_received (v : Z)
| Set_time_elapsed (v : float)
| Set_timestamp (v : float).

(** Modelled from the spec: the checker classes are hpctlib's; by the bucket
    field contract ("integer >= 0", "float >= 0.0") [IntegerRange(0, None)] and
    [FloatRange(0.0, None)] accept the values that are not below zero.  Each
    field has the checker its declaration names (lines 36-40): one for each of
    the three counters and the two times, none for the strings. *)
Definition checker (a : Assign) : bool :=
  match a with
  | Set_message _ | Set_origin _ | Set_next_holder _ => true
  | Set_cycles_complete v | Set_times_passed v | Set_times_received v => 0 <=? v
  | Set_time_elapsed v | Set_timestamp v => (0 <=? v)%float
  end.

Definition field_name (a : Assign) : string :=
  match a with
  | Set_message _ => "message"
  | Set_origin _ => "origin"
  | Set_next_holder _ => "next_holder"
  | Set_cycles_complete _ => "cycles_complete"
  | Set_times_passed _ => "times_passed"
  | Set_times_received _ => "times_received"
  | Set_time_elapsed _ => "time_elapsed"
  | Set_timestamp _ => "timestamp"
  end.

Definition store (a : Assign) (b : Bucket) : Bucket :=
  match a with
  | Set_message v =>
      mkBucket (Some v) (data_origin b) (data_next_holder b) (data_cycles_complete b)
        (data_times_passed b) (data_times_received b) (data_time_elapsed b) (data_timestamp b)
  | Set_origin v =>
      mkBucket (data_message b) (Some v) (data_next_holder b) (data_cycles_complete b)
        (data_times_passed b) (data_times_received b) (data_time_elapsed b) (data_timestamp b)
  | Set_next_holder v =>
      mkBucket (data_message b) (data_origin b) (Some v) (data_cycles_complete b)
        (data_times_passed b) (data_times_received b) (data_time_elapsed b) (data_timestamp b)
  | Set_cycles_complete v =>
      mkBucket (data_message b) (data_origin b) (data_next_holder b) (Some v)
        (data_times_passed b) (data_times_received b) (data_time_elapsed b) (data_timestamp b)
  | Set_times_passed v =>
      mkBucket (data_message b) (data_origin b) (data_next_holder b) (data_cycles_complete b)
        (Some v) (data_times_received b) (data_time_elapsed b) (data_timestamp b)
  | Set_times_received v =>
      mkBucket (data_message b) (data_origin b) (data_next_holder b) (data_cycles_complete b)
        (data_times_passed b) (Some v) (data_time_elapsed b) (data_timestamp b)
  | Set_time_elapsed v =>
      mkBucket (data_message b) (data_origin b) (data_next_holder b) (data_cycles_complete b)
        (data_times_passed b) (data_times_received b) (Some v) (data_timestamp b)
  | Set_timestamp v =>
      mkBucket (data_message b) (data_origin b) (data_next_holder b) (data_cycles_complete b)
        (data_times_passed b) (data_times_received b) (data_time_elapsed b) (Some v)
  end.


(* ================================================================= *)
(** ** The unit: state, surroundings and effects *)

(** [ops.model.Unit]: a name and the application it belongs to. *)
Record Unit : Type := mkUnit { name : string; app : string }.

(** [self.unit.status]; the charm only ever sets [ActiveStatus(message)]. *)
Inductive Status : Type :=
| UnknownStatus
| ActiveStatus (msg : fstring).

(** [self._stored.bucket]: the two cached tunables. *)
Record Stored : Type := mkStored {
  max_cycles : option Z;      (* [_MAX_CYCLES_KEY], [None] until configured *)
  delay : Z                   (* [_DELAY_KEY] *)
}.

(** [self._stored.set_default(bucket={max_cycles: None, delay: 0})]. *)
Definition stored_default : Stored := mkStored None 0.

Record State : Type := mkState {
  send_bucket : Bucket;       (* [self.i_send.select(self.unit)] *)
  status : Status;            (* [self.unit.status] *)
  stored : Stored             (* [self._stored.bucket] *)
}.

(** Modelled from the spec: [config.yaml] is not among the sources; the
    configuration has "two keys: max-cycles (non-negative integer or unset =
    unbounded) and delay (non-negative number of seconds, default 0)", so
    [self.config.get("max-cycles")] is [None] or an integer and
    [self.config.get("delay")] is a number, here a whole number of seconds. *)
Record Config : Type := mkConfig {
  config_max_cycles : option Z;            (* [self.config.get("max-cycles")] *)
  config_delay : Z                         (* [self.config.get("delay")] *)
}.

(** What a handler reads from its surroundings. *)
Record Env : Type := mkEnv {
  self_unit : Unit;                        (* [self.unit], with [self.app] *)
  ping_send : option (list Unit);          (* [self.model.get_relation("ping-send")]
                                              and its [units], in iteration order *)
  config : Config;                         (* [self.config] *)
  time_time : float                        (* [time.time()] *)
}.

Inductive Effect : Type :=
| Log (msg : fstring)          (* [logger.info(msg)] *)
| StatusSet (s : Status)       (* [self.unit.status = s] *)
| Sleep (seconds : Z)          (* [time.sleep(seconds)] *)
| Write (a : Assign).          (* [send_bucket.<field> = v], accepted *)

Inductive Exn : Type :=
| IndexError                   (* [target[0]] on an empty list *)
| AttributeError               (* [r.units] when [r] is [None] *)
| KeyError (key : string)      (* [event.params["token"]] when absent *)
| CheckError (field : string). (* an assignment its checker refuses *)

Inductive Completion (A : Type) : Type :=
| Normal (a : A)
| Returned                     (* a [return] statement was executed *)
| Raised (e : Exn).

Arguments Normal {A} a.
Arguments Returned {A}.
Arguments Raised {A} e.

(* ================================================================= *)
(** ** Handler computations *)

Definition M (A : Type) : Type := State -> Completion A * State * list Effect.

Definition ret {A : Type} (a : A) : M A := fun s => (Normal a, s, []).

Definition bind {A B : Type} (m : M A) (k : A -> M B) : M B :=
  fun s =>
    match m s with
    | (Normal a, s1, t1) =>
        match k a s1 with
        | (c, s2, t2) => (c, s2, t1 ++ t2)
        end
    | (Returned, s1, t1) => (Returned, s1, t1)
    | (Raised e, s1, t1) => (Raised e, s1, t1)
    end.

Declare Scope handler_scope.
Delimit Scope handler_scope with handler.
Bind Scope handler_scope with M.

Notation "x <- m ;; k" := (bind m (fun x => k))
  (at level 61, m at next level, right associativity) : handler_scope.
Notation "m ;; k" := (bind m (fun _ => k))
  (at level 61, right associativity) : handler_scope.

Open Scope handler_scope.

Definition return_ {A : Type} : M A := fun s => (Returned, s, []).
Definition raise {A : Type} (e : Exn) : M A := fun s => (Raised e, s, []).
Definition emit (e : Effect) : M unit := fun s => (Normal tt, s, [e]).
Definition pass : M unit := ret tt.

Definition logger_info (msg : fstring) : M unit := emit (Log msg).
Definition time_sleep (seconds : Z) : M unit := emit (Sleep seconds).

Definition set_status (st : Status) : M unit :=
  fun s => (Normal tt, mkState (send_bucket s) st (stored s), [StatusSet st]).

Definition get_stored : M Stored := fun s => (Normal (stored s), s, []).

Definition update_stored (f : Stored -> Stored) : M unit :=
  fun s => (Normal tt, mkState (send_bucket s) (status s) (f (stored s)), []).

Definition get_send_bucket : M Bucket := fun s => (Normal (send_bucket s), s, []).

(** Modelled from the spec: the descriptor's setter is hpctlib's and is not in
    the repository; "the collaborator validates ranges and rejects out-of-range
    writes".  A refused assignment raises and leaves the bucket as it was.
    The bucket is the unit's data in the [ping-send] relation: the assignment
    is that of a unit which has the relation.  What hpctlib does with the
    bucket of a unit that has none is not in the sources, and nothing below is
    stated about a write in that case. *)
Definition assign (a : Assign) : M unit :=
  fun s =>
    if checker a
    then (Normal tt, mkState (store a (send_bucket s)) (status s) (stored s), [Write a])
    else (Raised (CheckError (field_name a)), s, []).

(** The framework's call of a handler: a [return] ends it normally. *)
Definition call (m : M unit) : M unit :=
  fun s =>
    match m s with
    | (Returned, s1, t1) => (Normal tt, s1, t1)
    | r => r
    end.

(* ================================================================= *)
(** ** The charm (class [FeedAndSyncCharm]) *)

(** [event.relation.data[event.unit]], which [self.i_receive.select(event.unit)]
    reads as a bucket. *)
Record RelationChangedEvent : Type := mkRelationChanged { unit_data : Bucket }.

(** [event.params]: the action's [token] parameter, when given. *)
Record ActionEvent : Type := mkAction { params_token : option string }.

(** [a == b] on values that are [None] or an [int]. *)
Definition opt_int_eqb (a b : option Z) : bool :=
  match a, b with
  | None, None => true
  | Some x, Some y => x =? y
  | _, _ => false
  end.

(** [[u.name for u in r.units if u.app is not self.app]]; [r] may be [None]. *)
Definition target_names (env : Env) : M (list string) :=
  match ping_send env with
  | None => raise AttributeError
  | Some units =>
      ret (map name (filter (fun u => negb (app u =? app (self_unit env))%string) units))
  end.

(** [target[0]]. *)
Definition item0 (target : list string) : M string :=
  match target with
  | [] => raise IndexError
  | x :: _ => ret x
  end.

(** [event.params["token"]]. *)
Definition params_item (event : ActionEvent) : M string :=
  match params_token event with
  | None => raise (KeyError "token")
  | Some v => ret v
  end.

(** The completion message of the halt branch. *)
Definition completion_message (recv_bucket : Bucket) : fstring :=
  [Text "Max cycles reached. Time to completion is ";
   FloatRepr (time_elapsed recv_bucket);
   Text " seconds."].

(** The snapshot of the received token shown while it is being forwarded. *)
Definition snapshot_message (recv_bucket : Bucket) : fstring :=
  [Text "M: "; Text (message recv_bucket);
   Text " H: "; Text (next_holder recv_bucket);
   Text " P: "; Text (str_int (times_passed recv_bucket));
   Text " R: "; Text (str_int (times_received recv_bucket + 1));
   Text " C: "; Text (str_int (cycles_complete recv_bucket));
   Text " T: "; FloatFixed2 (time_elapsed recv_bucket)].

Definition _on_config_changed (env : Env) : M unit :=
  storage <- get_stored ;;
  let max_cycles' := config_max_cycles (config env) in
  (if negb (opt_int_eqb max_cycles' (max_cycles storage)) then
     logger_info [Text "Updating max cycles to "; Text (str_opt_int max_cycles'); Text "."] ;;
     update_stored (fun st => mkStored max_cycles' (delay st))
   else pass) ;;
  storage <- get_stored ;;
  let delay' := config_delay (config env) in
  if negb (delay' =? delay storage) then
    logger_info [Text "Updating total delay to "; Text (str_int delay'); Text "."] ;;
    update_stored (fun st => mkStored (max_cycles st) delay')
  else pass.

Definition _on_ping_receive_relation_changed
    (env : Env) (event : RelationChangedEvent) : M unit :=
  logger_info [Text "RelationChanged event detected..."] ;;
  if match data_message (unit_data event) with
     | None => true
     | Some m => (m =? "")%string
     end
  then
    logger_info [Text "Key 'message' is not present or is empty."] ;;
    return_
  else
    let recv_bucket := unit_data event in
    logger_info [Text "Checking cycles complete..."] ;;
    let c := cycles_complete recv_bucket + 1 in
    (if (origin recv_bucket =? name (self_unit env))%string then
       storage <- get_stored ;;
       if opt_int_eqb (max_cycles storage) (Some c) then
         set_status (ActiveStatus (completion_message recv_bucket)) ;;
         return_
       else
         assign (Set_cycles_complete c)
     else
       assign (Set_cycles_complete (cycles_complete recv_bucket))) ;;
    logger_info [Text "Updating token and sending to next holder..."] ;;
    set_status (ActiveStatus (snapshot_message recv_bucket)) ;;
    storage <- get_stored ;;
    (if 0 <? delay storage then time_sleep (delay storage) else pass) ;;
    target <- target_names env ;;
    assign (Set_message (message recv_bucket)) ;;
    assign (Set_origin (origin recv_bucket)) ;;
    holder <- item0 target ;;
    assign (Set_next_holder holder) ;;
    send <- get_send_bucket ;;
    (if negb (cycles_complete send =? cycles_complete recv_bucket) then
       pass
     else
       assign (Set_cycles_complete (cycles_complete recv_bucket))) ;;
    assign (Set_times_passed (times_passed recv_bucket + 1)) ;;
    assign (Set_times_received (times_received recv_bucket + 1)) ;;
    let timestamp' := time_time env in
    assign (Set_time_elapsed
              (time_elapsed recv_bucket + (timestamp' - timestamp recv_bucket))%float) ;;
    assign (Set_timestamp timestamp') ;;
    set_status (ActiveStatus []).

Definition _on_ping_action (env : Env) (event : ActionEvent) : M unit :=
  logger_info [Text "Ping action event recieved. Starting..."] ;;
  target <- target_names env ;;
  logger_info [Text "Constructing token..."] ;;
  token <- params_item event ;;
  assign (Set_message token) ;;
  assign (Set_origin (name (self_unit env))) ;;
  holder <- item0 target ;;
  assign (Set_next_holder holder) ;;
  assign (Set_cycles_complete 0) ;;
  assign (Set_times_passed 1) ;;
  assign (Set_times_received 0) ;;
  assign (Set_time_elapsed 0%float) ;;
  assign (Set_timestamp (time_time env)) ;;
  send <- get_send_bucket ;;
  logger_info [Text "Sending token to "; Text (next_holder send); Text "..."] ;;
  storage <- get_stored ;;
  if 0 <? delay storage then time_sleep (delay storage) else pass.

(** The events the charm observes ([self.framework.observe] in [__init__]). *)
Inductive Event : Type :=
| PingAction (event : ActionEvent)
| ConfigChanged
| PingReceiveRelationChanged (event : RelationChangedEvent).

Definition handle (env : Env) (ev : Event) : M unit :=
  match ev with
  | PingAction event => call (_on_ping_action env event)
  | ConfigChanged => call (_on_config_changed env)
  | PingReceiveRelationChanged event => call (_on_ping_receive_relation_changed env event)
  end.

(** The unit as [__init__] leaves it: nothing written, the defaults stored. *)
Definition initial_state : State := mkState empty_bucket UnknownStatus stored_default.

(* ----------------------------------------------------------------- *)
(** *** A two-unit ring for the examples *)

Definition unit_A : Unit := mkUnit "a/0" "a".
Definition unit_B : Unit := mkUnit "b/0" "b".

Definition env_A (limit : option Z) (now : float) : Env :=
  mkEnv unit_A (Some [unit_B]) (mkConfig limit 0) now.
Definition env_B (limit : option Z) (now : float) : Env :=
  mkEnv unit_B (Some [unit_A]) (mkConfig limit 0) now.

(* ================================================================= *)
(** ** The branches of [_on_ping_receive_relation_changed] *)

(** The guard of lines 84-87: the key is absent or its value is empty. *)
Definition no_message (event : RelationChangedEvent) : bool :=
  match data_message (unit_data event) with
  | None => true
  | Some m => (m =? "")%string
  end.

(** The halt test of lines 95-97. *)
Definition max_cycles_reached (env : Env) (s : State) (recv_bucket : Bucket) : bool :=
  (origin recv_bucket =? name (self_unit env))%string &&
  opt_int_eqb (max_cycles (stored s)) (Some (cycles_complete recv_bucket + 1)).

(** The forwarding targets: the names of the units of the other applications. *)
Definition candidates (env : Env) (units : list Unit) : list string :=
  map name (filter (fun u => negb (app u =? app (self_unit env))%string) units).

(** The lap count written on the forwarding path. *)
Definition cycles_out (env : Env) (recv_bucket : Bucket) : Z :=
  if (origin recv_bucket =? name (self_unit env))%string
  then cycles_complete recv_bucket + 1
  else cycles_complete recv_bucket.

(** The elapsed time written on the forwarding path. *)
Definition elapsed_out (env : Env) (recv_bucket : Bucket) : float :=
  (time_elapsed recv_bucket + (time_time env - timestamp recv_bucket))%float.

(** The bucket a completed forwarding hop leaves behind. *)
Definition forwarded_bucket (env : Env) (recv_bucket : Bucket) (holder : string) : Bucket :=
  mkBucket (Some (message recv_bucket)) (Some (origin recv_bucket)) (Some holder)
    (Some (cycles_out env recv_bucket))
    (Some (times_passed recv_bucket + 1)) (Some (times_received recv_bucket + 1))
    (Some (elapsed_out env recv_bucket)) (Some (time_time env)).

(** The effects of a completed forwarding hop, in order. *)
Definition forwarded_effects
    (env : Env) (s : State) (recv_bucket : Bucket) (holder : string) : list Effect :=
  [Log [Text "RelationChanged event detected..."];
   Log [Text "Checking cycles complete..."];
   Write (Set_cycles_complete (cycles_out env recv_bucket));
   Log [Text "Updating token and sending to next holder..."];
   StatusSet (ActiveStatus (snapshot_message recv_bucket))]
  ++ (if 0 <? delay (stored s) then [Sleep (delay (stored s))] else [])
  ++ [Write (Set_message (message recv_bucket));
      Write (Set_origin (origin recv_bucket));
      Write (Set_next_holder holder)]
  ++ (if (origin recv_bucket =? name (self_unit env))%string then []
      else [Write (Set_cycles_complete (cycles_complete recv_bucket))])
  ++ [Write (Set_times_passed (times_passed recv_bucket + 1));
      Write (Set_times_received (times_received recv_bucket + 1));
      Write (Set_time_elapsed (elapsed_out env recv_bucket));
      Write (Set_timestamp (time_time env));
      StatusSet (ActiveStatus [])].

(** The bucket [_on_ping_action] leaves behind when it completes. *)
Definition injected_bucket (env : Env) (token holder : string) : Bucket :=
  mkBucket (Some token) (Some (name (self_unit env))) (Some holder)
    (Some 0) (Some 1) (Some 0) (Some 0%float) (Some (time_time env)).

(** The effects of a completed [_on_ping_action], in order. *)
Definition injected_effects
    (env : Env) (s : State) (token holder : string) : list Effect :=
  [Log [Text "Ping action event recieved. Starting..."];
   Log [Text "Constructing token..."];
   Write (Set_message token);
   Write (Set_origin (name (self_unit env)));
   Write (Set_next_holder holder);
   Write (Set_cycles_complete 0);
   Write (Set_times_passed 1);
   Write (Set_times_received 0);
   Write (Set_time_elapsed 0%float);
   Write (Set_timestamp (time_time env));
   Log [Text "Sending token to "; Text holder; Text "..."]]
  ++ (if 0 <? delay (stored s) then [Sleep (delay (stored s))] else []).

(** The effects of the halt branch. *)
Definition halted_effects (recv_bucket : Bucket) : list Effect :=
  [Log [Text "RelationChanged event detected..."];
   Log [Text "Checking cycles complete..."];
   StatusSet (ActiveStatus (completion_message recv_bucket))].

(* ================================================================= *)
(** ** Token lineages *)

(** The tokens descending from one injection, each with the clock readings of
    the handlers that wrote it and its ancestors, latest first.  A token
    enters a lineage when [_on_ping_action] completes; it is followed by the
    token a holder leaves in its own bucket when its handler, given the
    previous token, completes on the forwarding path. *)
Inductive lineage : list float -> Bucket -> Prop :=
| lineage_inject env event s s' t :
    handle env (PingAction event) s = (Normal tt, s', t) ->
    lineage [time_time env] (send_bucket s')
| lineage_forward clocks recv_bucket env s s' t :
    lineage clocks recv_bucket ->
    no_message (mkRelationChanged recv_bucket) = false ->
    max_cycles_reached env s recv_bucket = false ->
    handle env (PingReceiveRelationChanged (mkRelationChanged recv_bucket)) s
      = (Normal tt, s', t) ->
    lineage (time_time env :: clocks) (send_bucket s').

(** The successive differences of a list of clock readings, latest first. *)
Fixpoint deltas (clocks : list float) : list float :=
  match clocks with
  | now :: (previous :: _) as earlier => (now - previous)%float :: deltas earlier
  | _ => []
  end.

(** The sum of a list of deltas, accumulated from the oldest (last) one on,
    starting from [0.0]. *)
Definition total (ds : list float) : float :=
  fold_right (fun d acc => (acc + d)%float) 0%float ds.

(* ----------------------------------------------------------------- *)
(** *** Sample tokens and events *)

(** The token of the two-unit scenario after [unit_B] forwarded it once. *)
Definition token_from_B (elapsed stamp : float) : Bucket :=
  mkBucket (Some "hello") (Some "a/0") (Some "a/0")
    (Some 0) (Some 2) (Some 1) (Some elapsed) (Some stamp).

Definition state_with_limit (limit : option Z) : State :=
  mkState empty_bucket UnknownStatus (mkStored limit 0).

(** The token [unit_A] injects in the two-unit scenario. *)
Definition token_from_A (stamp : float) : Bucket :=
  mkBucket (Some "hello") (Some "a/0") (Some "b/0")
    (Some 0) (Some 1) (Some 0) (Some 0%float) (Some stamp).

(** The outcome of a handler run, taken apart. *)
Definition completion_of {A : Type} (r : Completion A * State * list Effect) :=
  fst (fst r).
Definition state_of {A : Type} (r : Completion A * State * list Effect) : State :=
  snd (fst r).
Definition effects_of {A : Type} (r : Completion A * State * list Effect) :=
  snd r.

(** [unit_B] receives the token [unit_A] injected at time 100, at time 110. *)
Definition B_receives :=
  handle (env_B None 110%float)
    (PingReceiveRelationChanged (mkRelationChanged (token_from_A 100))) initial_state.

(** [unit_A], with no limit, receives the token [unit_B] forwarded. *)
Definition A_receives (now : float) :=
  handle (env_A None now)
    (PingReceiveRelationChanged (mkRelationChanged (token_from_B 10 110))) initial_state.

(** [unit_A] injects at time 100. *)
Definition A_injects :=
  handle (env_A None 100%float) (PingAction (mkAction (Some "hello"))) initial_state.




(* ================================================================= *)
(** ** What a handler can see of the unit *)

(** Two states that differ at most in the unit status. *)
Definition agree (s1 s2 : State) : Prop :=
  send_bucket s1 = send_bucket s2 /\ stored s1 = stored s2.

(** A computation that cannot tell such states apart: it completes alike and
    with the same effects, and leaves states that again differ at most in the
    status. *)
Definition status_blind {A : Type} (m : M A) : Prop :=
  forall s1 s2, agree s1 s2 ->
    completion_of (m s1) = completion_of (m s2) /\
    effects_of (m s1) = effects_of (m s2) /\
    agree (state_of (m s1)) (state_of (m s2)).

(** The status after a sequence of effects: the last one set, if any. *)
Definition last_status (t : list Effect) (st : Status) : Status :=
  fold_left (fun st e => match e with StatusSet x => x | _ => st end) t st.

(** A computation whose final status is accounted for by its effects. *)
Definition status_traced {A : Type} (m : M A) : Prop :=
  forall s, status (state_of (m s)) = last_status (effects_of (m s)) (status s).

(** The state with another status. *)
Definition with_status (st : Status) (s : State) : State :=
  mkState (send_bucket s) st (stored s).

(** [unit_A], limited to one lap, receives the token [unit_B] forwarded and
    halts; afterwards the operator injects again. *)
Definition A_halts :=
  handle (env_A (Some 1) 120%float)
    (PingReceiveRelationChanged (mkRelationChanged (token_from_B 10 110)))
    (state_with_limit (Some 1)).

(** The state with another cached [max_cycles]. *)
Definition with_limit (limit : option Z) (s : State) : State :=
  mkState (send_bucket s) (status s) (mkStored limit (delay (stored s))).

(** [unit_A]'s clock reads 105 when it receives the token [unit_B] stamped
    at 110. *)
Definition A_receives_early := A_receives 105.

(* ================================================================= *)
(** ** Further notions for the handlers *)

(** A computation that leaves a component of the state as it found it,
    however it ends. *)
Definition preserves {X A : Type} (f : State -> X) (m : M A) : Prop :=
  forall s, f (state_of (m s)) = f s.

(** The log lines of [_on_config_changed] for a configuration met with the
    stored tunables [st]. *)
Definition config_log (c : Config) (st : Stored) : list Effect :=
  (if opt_int_eqb (config_max_cycles c) (max_cycles st) then []
   else [Log [Text "Updating max cycles to ";
              Text (str_opt_int (config_max_cycles c)); Text "."]])
  ++ (if config_delay c =? delay st then []
      else [Log [Text "Updating total delay to ";
                 Text (str_int (config_delay c)); Text "."]]).

(** The same surroundings with another configuration. *)
Definition with_config (c : Config) (env : Env) : Env :=
  mkEnv (self_unit env) (ping_send env) c (time_time env).

(** [forwarded_through envs first last]: the token [first] was forwarded by
    the holders whose surroundings are [envs], latest first, each receiving
    what the previous one left in its bucket, and [last] is what the latest
    left. *)
Inductive forwarded_through : list Env -> Bucket -> Bucket -> Prop :=
| through_none tok : forwarded_through [] tok tok
| through_hop envs first recv_bucket env s s' t :
    forwarded_through envs first recv_bucket ->
    no_message (mkRelationChanged recv_bucket) = false ->
    max_cycles_reached env s recv_bucket = false ->
    handle env (PingReceiveRelationChanged (mkRelationChanged recv_bucket)) s
      = (Normal tt, s', t) ->
    forwarded_through (env :: envs) first (send_bucket s').

(** How many of the holders are the unit named [o]. *)
Definition returns_to (o : string) (envs : list Env) : nat :=
  length (filter (fun env => (o =? name (self_unit env))%string) envs).

(** [unit_A] without a [ping-send] relation. *)
Definition env_unrelated (now : float) : Env := mkEnv unit_A None (mkConfig None 0) now.

(** A unit whose stored delay is two seconds. *)
Definition state_delayed : State := mkState empty_bucket UnknownStatus (mkStored None 2).

Definition A_injects_delayed :=
  handle (env_A None 100%float) (PingAction (mkAction (Some "hello"))) state_delayed.

Definition B_receives_delayed :=
  handle (env_B None 110%float)
    (PingReceiveRelationChanged (mkRelationChanged (token_from_A 100))) state_delayed.

(* ================================================================= *)
(** ** The two-unit ring, run *)

(** The states of [unit_A] and [unit_B].  [unit_A] injects "hello"; then
    the two units take turns, [unit_B] first, each handling the change of the
    other's bucket.  Both clocks read 100 throughout, and both units have the
    same stored limit and no delay. *)
Definition ring_start (limit : option Z) : State * State :=
  (state_of (handle (env_A limit 100%float) (PingAction (mkAction (Some "hello")))
               (state_with_limit limit)),
   state_with_limit limit).

Definition ring_step (limit : option Z) (turn_B : bool) (r : State * State)
    : State * State :=
  if turn_B
  then (fst r,
        state_of (handle (env_B limit 100%float)
                    (PingReceiveRelationChanged (mkRelationChanged (send_bucket (fst r))))
                    (snd r)))
  else (state_of (handle (env_A limit 100%float)
                    (PingReceiveRelationChanged (mkRelationChanged (send_bucket (snd r))))
                    (fst r)),
        snd r).

Fixpoint ring (limit : option Z) (hops : nat) : State * State :=
  match hops with
  | O => ring_start limit
  | S k => ring_step limit (Nat.even k) (ring limit k)
  end.

(** The token in the bucket of [unit_A] after [laps] laps, and the one in the
    bucket of [unit_B] half a lap later. *)
Definition ring_token_at_A (laps : Z) : Bucket :=
  mkBucket (Some "hello") (Some "a/0") (Some "b/0")
    (Some laps) (Some (2 * laps + 1)) (Some (2 * laps)) (Some 0%float) (Some 100%float).

Definition ring_token_at_B (laps : Z) : Bucket :=
  mkBucket (Some "hello") (Some "a/0") (Some "a/0")
    (Some laps) (Some (2 * laps + 2)) (Some (2 * laps + 1)) (Some 0%float) (Some 100%float).
(* ================================================================= *)
(** ** Running a handler symbolically *)

(** Reading a field of the bucket after an assignment. *)
Lemma cycles_complete_store a b :
  cycles_complete (store a b) =
  match a with
  | Set_cycles_complete v => v
  | _ => cycles_complete b
  end.
Proof. destruct a; reflexivity. Qed.

Lemma next_holder_store a b :
  next_holder (store a b) =
  match a with
  | Set_next_holder v => v
  | _ => next_holder b
  end.
Proof. destruct a; reflexivity. Qed.

Ltac eval_in H :=
  cbv [bind ret raise emit pass logger_info time_sleep set_status get_stored
       update_stored get_send_bucket assign call return_ target_names item0
       params_item checker handle] in H;
  cbn [send_bucket status stored List.app] in H;
  rewrite ?cycles_complete_store, ?next_holder_store in H.

Ltac split_run H :=
  eval_in H;
  match type of H with
  | context [if ?c then _ else _] => destruct c eqn:?
  | context [match ping_send ?e with _ => _ end] => destruct (ping_send e) eqn:?
  | context [match map name ?l with _ => _ end] => destruct (map name l) eqn:?
  | context [match params_token ?e with _ => _ end] => destruct (params_token e) eqn:?
  end.

Ltac run_all H := repeat (split_run H; try discriminate); eval_in H.

(** What a completed run on the forwarding path implies: a candidate was
    found, every assignment was accepted, and the state and the effects are
    the forwarded ones. *)
Lemma forward_inv env event s s' t m :
  data_message (unit_data event) = Some m -> m <> "" ->
  max_cycles_reached env s (unit_data event) = false ->
  handle env (PingReceiveRelationChanged event) s = (Normal tt, s', t) ->
  exists units holder rest,
    ping_send env = Some units /\
    candidates env units = holder :: rest /\
    checker (Set_cycles_complete (cycles_out env (unit_data event))) = true /\
    checker (Set_times_passed (times_passed (unit_data event) + 1)) = true /\
    checker (Set_times_received (times_received (unit_data event) + 1)) = true /\
    checker (Set_time_elapsed (elapsed_out env (unit_data event))) = true /\
    checker (Set_timestamp (time_time env)) = true /\
    s' = mkState (forwarded_bucket env (unit_data event) holder)
           (ActiveStatus []) (stored s) /\
    t = forwarded_effects env s (unit_data event) holder.
Proof.
  intros Hm Hne Hh Hrun.
  unfold handle, call, _on_ping_receive_relation_changed in Hrun.
  rewrite Hm in Hrun.
  destruct (String.eqb_spec m "") as [->|_]; [congruence|].
  unfold max_cycles_reached in Hh.
  unfold forwarded_bucket, forwarded_effects, candidates, cycles_out, elapsed_out.
  remember (unit_data event) as recv eqn:Hrecv.
  run_all Hrun.
  all: try (rewrite Heqb0 in Hh; discriminate Hh).
  all: try (exfalso;
            rewrite ?negb_true_iff, ?negb_false_iff, ?Z.eqb_eq, ?Z.eqb_neq in *;
            lia).
  all: injection Hrun as <- <-.
  all: eexists _, _, _; repeat split; eauto.
Qed.

Ltac eval_goal :=
  cbv [bind ret raise emit pass logger_info time_sleep set_status get_stored
       update_stored get_send_bucket assign call return_ target_names item0
       params_item checker handle];
  cbn [send_bucket status stored List.app];
  rewrite ?cycles_complete_store, ?next_holder_store;
  change (0 <=? 0) with true; change (0 <=? 1) with true; cbv iota.

Lemma zero_in_range : (0 <=? 0)%float = true.
Proof. reflexivity. Qed.

(** [_on_ping_action] completes when the token is given, a candidate exists
    and the clock reading is accepted as a timestamp. *)
Lemma inject_run env event s token units holder rest :
  params_token event = Some token ->
  ping_send env = Some units ->
  candidates env units = holder :: rest ->
  (0 <=? time_time env)%float = true ->
  handle env (PingAction event) s =
    (Normal tt,
     mkState (injected_bucket env token holder) (status s) (stored s),
     injected_effects env s token holder).
Proof.
  intros Htok Hrel Hcand Hnow.
  unfold handle, _on_ping_action, injected_effects, injected_bucket.
  unfold candidates in Hcand.
  eval_goal. rewrite Hrel. eval_goal. rewrite Hcand, Htok. eval_goal.
  rewrite zero_in_range, Hnow. eval_goal.
  destruct (0 <? delay (stored s)); reflexivity.
Qed.

(** What a completed [_on_ping_action] implies. *)
Lemma inject_inv env event s s' t :
  handle env (PingAction event) s = (Normal tt, s', t) ->
  exists token units holder rest,
    params_token event = Some token /\
    ping_send env = Some units /\
    candidates env units = holder :: rest /\
    (0 <=? time_time env)%float = true /\
    s' = mkState (injected_bucket env token holder) (status s) (stored s) /\
    t = injected_effects env s token holder.
Proof.
  intros Hrun.
  destruct (params_token event) as [token|] eqn:Htok.
  - destruct (ping_send env) as [units|] eqn:Hrel.
    + destruct (candidates env units) as [|holder rest] eqn:Hcand.
      * exfalso. unfold handle, _on_ping_action in Hrun. unfold candidates in Hcand.
        eval_in Hrun. rewrite Hrel in Hrun. eval_in Hrun.
        rewrite Hcand, Htok in Hrun. eval_in Hrun. discriminate Hrun.
      * destruct (0 <=? time_time env)%float eqn:Hnow.
        -- rewrite (inject_run env event s token units holder rest) in Hrun by assumption.
           injection Hrun as <- <-.
           exists token, units, holder, rest. repeat split; assumption.
        -- exfalso. unfold handle, _on_ping_action in Hrun. unfold candidates in Hcand.
           eval_in Hrun. rewrite Hrel in Hrun. eval_in Hrun.
           rewrite Hcand, Htok in Hrun. eval_in Hrun.
           change (0 <=? 0) with true in Hrun; change (0 <=? 1) with true in Hrun.
           cbv iota in Hrun.
           rewrite zero_in_range, Hnow in Hrun. discriminate Hrun.
    + exfalso. unfold handle, _on_ping_action in Hrun.
      eval_in Hrun. rewrite Hrel in Hrun. discriminate Hrun.
  - exfalso. unfold handle, _on_ping_action in Hrun.
    eval_in Hrun. destruct (ping_send env); [|discriminate Hrun].
    eval_in Hrun. rewrite Htok in Hrun. discriminate Hrun.
Qed.

Ltac step_goal :=
  eval_goal;
  match goal with
  | H : ?c = _ |- context [if ?c then _ else _] => rewrite H
  | H : ping_send ?e = _ |- context [match ping_send ?e with _ => _ end] => rewrite H
  | H : ?l = _ :: _ |- context [match ?l with _ => _ end] => rewrite H
  | H : ?l = [] |- context [match ?l with _ => _ end] => rewrite H
  | H : params_token ?e = _ |- context [match params_token ?e with _ => _ end] => rewrite H
  end.

(** The forwarding path completes when a candidate exists and every
    assignment is accepted. *)
Lemma forward_run env event s m units holder rest :
  data_message (unit_data event) = Some m -> m <> "" ->
  max_cycles_reached env s (unit_data event) = false ->
  ping_send env = Some units ->
  candidates env units = holder :: rest ->
  checker (Set_cycles_complete (cycles_out env (unit_data event))) = true ->
  checker (Set_times_passed (times_passed (unit_data event) + 1)) = true ->
  checker (Set_times_received (times_received (unit_data event) + 1)) = true ->
  checker (Set_time_elapsed (elapsed_out env (unit_data event))) = true ->
  checker (Set_timestamp (time_time env)) = true ->
  handle env (PingReceiveRelationChanged event) s =
    (Normal tt,
     mkState (forwarded_bucket env (unit_data event) holder)
       (ActiveStatus []) (stored s),
     forwarded_effects env s (unit_data event) holder).
Proof.
  intros Hm Hne Hh Hrel Hcand Hcc Htp Htr Hte Hts.
  unfold handle, _on_ping_receive_relation_changed.
  rewrite Hm.
  destruct (String.eqb_spec m "") as [->|_]; [congruence|].
  unfold max_cycles_reached in Hh.
  unfold forwarded_bucket, forwarded_effects, cycles_out, elapsed_out in *.
  unfold candidates in Hcand. cbv [checker] in Hcc, Htp, Htr, Hte, Hts.
  remember (unit_data event) as recv eqn:Hrecv.
  destruct (origin recv =? name (self_unit env))%string eqn:Horigin;
    destruct (0 <? delay (stored s)) eqn:Hdelay;
    cbn [andb] in Hh.
  1, 2: assert (Hlap : negb (cycles_complete recv + 1 =? cycles_complete recv) = true)
    by (rewrite negb_true_iff, Z.eqb_neq; lia).
  3, 4: assert (Hlap : negb (cycles_complete recv =? cycles_complete recv) = false)
    by (rewrite negb_false_iff, Z.eqb_eq; lia).
  all: repeat step_goal; reflexivity.
Qed.

(** The halt branch. *)
Lemma halt_run env event s m :
  data_message (unit_data event) = Some m -> m <> "" ->
  max_cycles_reached env s (unit_data event) = true ->
  handle env (PingReceiveRelationChanged event) s =
    (Normal tt,
     mkState (send_bucket s) (ActiveStatus (completion_message (unit_data event)))
       (stored s),
     halted_effects (unit_data event)).
Proof.
  intros Hm Hne Hh.
  unfold handle, _on_ping_receive_relation_changed, halted_effects.
  rewrite Hm.
  destruct (String.eqb_spec m "") as [->|_]; [congruence|].
  unfold max_cycles_reached in Hh. apply andb_true_iff in Hh as [Horigin Hmax].
  repeat step_goal. reflexivity.
Qed.

(** The guard. *)
Lemma guard_run env event s :
  no_message event = true ->
  handle env (PingReceiveRelationChanged event) s =
    (Normal tt, s,
     [Log [Text "RelationChanged event detected..."];
      Log [Text "Key 'message' is not present or is empty."]]).
Proof.
  intros Hg. unfold no_message in Hg.
  unfold handle, _on_ping_receive_relation_changed.
  rewrite Hg. eval_goal. reflexivity.
Qed.

Lemma no_message_false event :
  no_message event = false ->
  exists m, data_message (unit_data event) = Some m /\ m <> "".
Proof.
  unfold no_message. destruct (data_message (unit_data event)) as [m|]; [|discriminate].
  intros H. exists m. split; [reflexivity|].
  intros ->. discriminate H.
Qed.

Lemma no_message_true event :
  no_message event = true <->
  data_message (unit_data event) = None \/ data_message (unit_data event) = Some "".
Proof.
  unfold no_message. destruct (data_message (unit_data event)) as [m|].
  - rewrite String.eqb_eq. split.
    + intros ->. now right.
    + intros [H|H]; congruence.
  - split; auto.
Qed.

(** A completed forwarding hop, from any received bucket. *)
Lemma hop_inv env recv_bucket s s' t :
  no_message (mkRelationChanged recv_bucket) = false ->
  max_cycles_reached env s recv_bucket = false ->
  handle env (PingReceiveRelationChanged (mkRelationChanged recv_bucket)) s
    = (Normal tt, s', t) ->
  exists holder,
    send_bucket s' = forwarded_bucket env recv_bucket holder /\
    status s' = ActiveStatus [] /\
    stored s' = stored s /\
    t = forwarded_effects env s recv_bucket holder /\
    checker (Set_time_elapsed (elapsed_out env recv_bucket)) = true /\
    checker (Set_timestamp (time_time env)) = true.
Proof.
  intros Hg Hh Hrun.
  destruct (no_message_false _ Hg) as (m & Hm & Hne).
  destruct (forward_inv _ _ _ _ _ _ Hm Hne Hh Hrun)
    as (units & holder & rest & _ & _ & _ & _ & _ & Hte & Hts & -> & ->).
  exists holder. cbn [send_bucket status stored unit_data] in *. auto 10.
Qed.


(* ================================================================= *)
(** ** The halt branch and the guard *)

(** C1.  A token with a non-empty message that comes back to its origin with
    [cycles_complete + 1] equal to the stored [max_cycles] ends the run: the
    handler returns normally, the bucket and the stored tunables are what they
    were, no assignment to the bucket is among the effects, and the status is
    the completion message carrying the received [time_elapsed]. *)
Theorem halt_reports_completion_without_write env event s m :
  data_message (unit_data event) = Some m -> m <> "" ->
  origin (unit_data event) = name (self_unit env) ->
  max_cycles (stored s) = Some (cycles_complete (unit_data event) + 1) ->
  exists t,
    handle env (PingReceiveRelationChanged event) s =
      (Normal tt,
       mkState (send_bucket s)
         (ActiveStatus
            [Text "Max cycles reached. Time to completion is ";
             FloatRepr (time_elapsed (unit_data event));
             Text " seconds."])
         (stored s),
       t) /\
    forall a, ~ In (Write a) t.
Proof.
  intros Hm Hne Horigin Hmax.
  exists (halted_effects (unit_data event)). split.
  - apply (halt_run env event s m Hm Hne).
    unfold max_cycles_reached. rewrite Horigin, String.eqb_refl, Hmax.
    cbn. apply Z.eqb_refl.
  - intros a [H|[H|[H|[]]]]; discriminate H.
Qed.

(** C5.  With the [message] key absent or empty the handler does nothing but
    log: it returns normally, the whole state (bucket, status, stored
    tunables) is unchanged, and the effects are the two log lines. *)
Theorem empty_message_is_ignored env event s :
  data_message (unit_data event) = None \/ data_message (unit_data event) = Some "" ->
  handle env (PingReceiveRelationChanged event) s =
    (Normal tt, s,
     [Log [Text "RelationChanged event detected..."];
      Log [Text "Key 'message' is not present or is empty."]]).
Proof.
  intros H. apply guard_run, no_message_true, H.
Qed.

(* ================================================================= *)
(** ** Injection *)

(** C6.  When the action carries a token, the [ping-send] relation has a unit
    of another application and the clock reading is in the range of the
    [timestamp] field, [_on_ping_action] completes and leaves in the unit's
    own bucket the token, the unit's own name as origin, the first candidate
    as next holder, no lap, one pass, no reception, no elapsed time and the
    clock reading. *)
Theorem inject_builds_token env event s token units holder rest :
  params_token event = Some token ->
  ping_send env = Some units ->
  candidates env units = holder :: rest ->
  (0 <=? time_time env)%float = true ->
  exists s' t,
    handle env (PingAction event) s = (Normal tt, s', t) /\
    send_bucket s' =
      mkBucket (Some token) (Some (name (self_unit env))) (Some holder)
        (Some 0) (Some 1) (Some 0) (Some 0%float) (Some (time_time env)).
Proof.
  intros Htok Hrel Hcand Hnow.
  eexists _, _. split.
  - apply (inject_run env event s token units holder rest); assumption.
  - reflexivity.
Qed.

Lemma halt_reports_completion_without_write_witness :
  exists t,
    handle (env_A (Some 1) 120%float)
      (PingReceiveRelationChanged (mkRelationChanged (token_from_B 10 110)))
      (state_with_limit (Some 1)) =
      (Normal tt,
       mkState empty_bucket
         (ActiveStatus
            [Text "Max cycles reached. Time to completion is ";
             FloatRepr 10%float;
             Text " seconds."])
         (mkStored (Some 1) 0),
       t) /\
    forall a, ~ In (Write a) t.
Proof.
  apply (halt_reports_completion_without_write (env_A (Some 1) 120%float)
           (mkRelationChanged (token_from_B 10 110)) (state_with_limit (Some 1))
           "hello").
  - reflexivity.
  - discriminate.
  - reflexivity.
  - reflexivity.
Defined.

Lemma empty_message_is_ignored_witness :
  handle (env_B None 50%float)
    (PingReceiveRelationChanged (mkRelationChanged empty_bucket)) initial_state =
    (Normal tt, initial_state,
     [Log [Text "RelationChanged event detected..."];
      Log [Text "Key 'message' is not present or is empty."]]).
Proof.
  apply (empty_message_is_ignored (env_B None 50%float)
           (mkRelationChanged empty_bucket) initial_state).
  left. reflexivity.
Defined.

Lemma inject_builds_token_witness :
  exists s' t,
    handle (env_A (Some 1) 100%float) (PingAction (mkAction (Some "hello")))
      initial_state = (Normal tt, s', t) /\
    send_bucket s' =
      mkBucket (Some "hello") (Some "a/0") (Some "b/0")
        (Some 0) (Some 1) (Some 0) (Some 0%float) (Some 100%float).
Proof.
  apply (inject_builds_token (env_A (Some 1) 100%float) (mkAction (Some "hello"))
           initial_state "hello" [unit_B] "b/0" []); reflexivity.
Defined.

(* ================================================================= *)
(** ** Counters along a lineage *)

Lemma lineage_counters clocks tok :
  lineage clocks tok -> times_passed tok = times_received tok + 1.
Proof.
  induction 1 as [env event s s' t Hrun
                 | clocks recv env s s' t Hlin IH Hg Hh Hrun].
  - apply inject_inv in Hrun
      as (token & units & holder & rest & _ & _ & _ & _ & -> & _).
    reflexivity.
  - destruct (hop_inv _ _ _ _ _ Hg Hh Hrun) as (holder & -> & _).
    unfold forwarded_bucket, times_passed, times_received in *. cbn in *. lia.
Qed.

(** C2.  [_on_ping_action] writes [times_passed = 1] and [times_received = 0];
    a completed forwarding hop writes both counters of the received token plus
    one; hence [times_passed = times_received + 1] on every token of every
    lineage. *)
Theorem pass_counters_in_step :
  (forall env event s s' t,
     handle env (PingAction event) s = (Normal tt, s', t) ->
     times_passed (send_bucket s') = 1 /\ times_received (send_bucket s') = 0) /\
  (forall env event s s' t m,
     data_message (unit_data event) = Some m -> m <> "" ->
     max_cycles_reached env s (unit_data event) = false ->
     handle env (PingReceiveRelationChanged event) s = (Normal tt, s', t) ->
     times_passed (send_bucket s') = times_passed (unit_data event) + 1 /\
     times_received (send_bucket s') = times_received (unit_data event) + 1) /\
  (forall clocks tok,
     lineage clocks tok -> times_passed tok = times_received tok + 1).
Proof.
  split; [|split].
  - intros env event s s' t Hrun.
    apply inject_inv in Hrun
      as (token & units & holder & rest & _ & _ & _ & _ & -> & _).
    split; reflexivity.
  - intros env event s s' t m Hm Hne Hh Hrun.
    destruct (forward_inv _ _ _ _ _ _ Hm Hne Hh Hrun)
      as (units & holder & rest & _ & _ & _ & _ & _ & _ & _ & -> & _).
    split; reflexivity.
  - exact lineage_counters.
Qed.

Lemma B_receives_completes :
  B_receives = (Normal tt, state_of B_receives, effects_of B_receives).
Proof. vm_compute. reflexivity. Qed.

Lemma A_injects_completes :
  A_injects = (Normal tt, state_of A_injects, effects_of A_injects).
Proof. vm_compute. reflexivity. Qed.

Lemma lineage_after_B :
  lineage [110%float; 100%float] (send_bucket (state_of B_receives)).
Proof.
  apply (lineage_forward [100%float] (token_from_A 100) (env_B None 110%float)
           initial_state (state_of B_receives) (effects_of B_receives)).
  - exact (lineage_inject (env_A None 100%float) (mkAction (Some "hello"))
             initial_state (state_of A_injects) (effects_of A_injects)
             A_injects_completes).
  - reflexivity.
  - reflexivity.
  - exact B_receives_completes.
Qed.

Lemma pass_counters_in_step_witness :
  (times_passed (send_bucket (state_of A_injects)) = 1 /\
   times_received (send_bucket (state_of A_injects)) = 0) /\
  (times_passed (send_bucket (state_of B_receives)) = 1 + 1 /\
   times_received (send_bucket (state_of B_receives)) = 0 + 1) /\
  times_passed (send_bucket (state_of B_receives)) =
    times_received (send_bucket (state_of B_receives)) + 1.
Proof.
  destruct pass_counters_in_step as (Hinject & Hhop & Hlineage).
  split; [|split].
  - exact (Hinject _ _ _ _ _ A_injects_completes).
  - refine (Hhop (env_B None 110%float) (mkRelationChanged (token_from_A 100))
              initial_state _ _ "hello" _ _ _ B_receives_completes).
    + reflexivity.
    + discriminate.
    + reflexivity.
  - exact (Hlineage _ _ lineage_after_B).
Defined.

(* ================================================================= *)
(** ** Laps *)

(** C3.  On a completed forwarding hop the lap count written is never less
    than the one received; it is the received count plus one when the token's
    origin is the local unit, and the received count when it is another
    unit, so it is one more exactly at the origin. *)
Theorem laps_counted_at_origin env event s s' t m :
  data_message (unit_data event) = Some m -> m <> "" ->
  max_cycles_reached env s (unit_data event) = false ->
  handle env (PingReceiveRelationChanged event) s = (Normal tt, s', t) ->
  cycles_complete (unit_data event) <= cycles_complete (send_bucket s') /\
  (origin (unit_data event) = name (self_unit env) ->
   cycles_complete (send_bucket s') = cycles_complete (unit_data event) + 1) /\
  (origin (unit_data event) <> name (self_unit env) ->
   cycles_complete (send_bucket s') = cycles_complete (unit_data event)) /\
  (cycles_complete (send_bucket s') = cycles_complete (unit_data event) + 1 <->
   origin (unit_data event) = name (self_unit env)).
Proof.
  intros Hm Hne Hh Hrun.
  destruct (forward_inv _ _ _ _ _ _ Hm Hne Hh Hrun)
    as (units & holder & rest & _ & _ & _ & _ & _ & _ & _ & -> & _).
  change (cycles_complete (send_bucket (mkState
            (forwarded_bucket env (unit_data event) holder) (ActiveStatus [])
            (stored s))))
    with (cycles_out env (unit_data event)).
  unfold cycles_out.
  destruct (String.eqb_spec (origin (unit_data event)) (name (self_unit env)))
    as [Heq|Hneq].
  - repeat split; intros; try lia; try assumption; try contradiction.
  - repeat split; intros; try lia; try contradiction.
Qed.

Lemma laps_counted_at_origin_witness :
  cycles_complete (token_from_B 10 110) <=
    cycles_complete (send_bucket (state_of (A_receives 120))) /\
  (origin (token_from_B 10 110) = name unit_A ->
   cycles_complete (send_bucket (state_of (A_receives 120))) =
     cycles_complete (token_from_B 10 110) + 1) /\
  (origin (token_from_B 10 110) <> name unit_A ->
   cycles_complete (send_bucket (state_of (A_receives 120))) =
     cycles_complete (token_from_B 10 110)) /\
  (cycles_complete (send_bucket (state_of (A_receives 120))) =
     cycles_complete (token_from_B 10 110) + 1 <->
   origin (token_from_B 10 110) = name unit_A).
Proof.
  apply (laps_counted_at_origin (env_A None 120%float)
           (mkRelationChanged (token_from_B 10 110)) initial_state
           (state_of (A_receives 120)) (effects_of (A_receives 120)) "hello").
  - reflexivity.
  - discriminate.
  - reflexivity.
  - vm_compute. reflexivity.
Defined.

(* ================================================================= *)
(** ** No forwarding target *)






(* ================================================================= *)
(** ** The status during and after a forwarding hop *)

(** C8, as the code has it.  On a completed forwarding hop the status is set
    twice.  The first is the snapshot of the received token: its message, next
    holder and passes, its receptions plus one, its laps and its elapsed time
    to two decimals.  Before it the handler has only logged and written the
    lap count; after it come the delay, when one is stored, and the writes of
    the message, the origin, the next holder, the two counters, the elapsed
    time and the timestamp, and no other status.  The last effect of the
    handler sets the empty active status, which is what remains when the
    handler completes. *)
Theorem snapshot_shown_then_cleared env event s s' t m :
  data_message (unit_data event) = Some m -> m <> "" ->
  max_cycles_reached env s (unit_data event) = false ->
  handle env (PingReceiveRelationChanged event) s = (Normal tt, s', t) ->
  exists before after,
    t = before
        ++ [StatusSet
              (ActiveStatus
                 [Text "M: "; Text m;
                  Text " H: "; Text (next_holder (unit_data event));
                  Text " P: "; Text (str_int (times_passed (unit_data event)));
                  Text " R: "; Text (str_int (times_received (unit_data event) + 1));
                  Text " C: "; Text (str_int (cycles_complete (unit_data event)));
                  Text " T: "; FloatFixed2 (time_elapsed (unit_data event))])]
        ++ after
        ++ [StatusSet (ActiveStatus [])] /\
    (forall e, In e before -> match e with StatusSet _ | Sleep _ => False | _ => True end) /\
    (forall e, In e after -> match e with StatusSet _ => False | _ => True end) /\
    status s' = ActiveStatus [] /\
    (forall a, In (Write a) before ->
               a = Set_cycles_complete (cycles_complete (send_bucket s'))) /\
    In (Write (Set_cycles_complete (cycles_complete (send_bucket s')))) before /\
    (0 < delay (stored s) -> In (Sleep (delay (stored s))) after) /\
    In (Write (Set_message m)) after /\
    In (Write (Set_origin (origin (unit_data event)))) after /\
    In (Write (Set_next_holder (next_holder (send_bucket s')))) after /\
    In (Write (Set_times_passed (times_passed (unit_data event) + 1))) after /\
    In (Write (Set_times_received (times_received (unit_data event) + 1))) after /\
    In (Write (Set_time_elapsed
                 (time_elapsed (unit_data event)
                  + (time_time env - timestamp (unit_data event)))%float)) after /\
    In (Write (Set_timestamp (time_time env))) after.
Proof.
  intros Hm Hne Hh Hrun.
  destruct (forward_inv _ _ _ _ _ _ Hm Hne Hh Hrun)
    as (units & holder & rest & _ & _ & _ & _ & _ & _ & _ & -> & ->).
  unfold forwarded_effects, snapshot_message, message. rewrite Hm. cbn [value_or].
  change (cycles_complete (send_bucket (mkState
            (forwarded_bucket env (unit_data event) holder) (ActiveStatus [])
            (stored s))))
    with (cycles_out env (unit_data event)).
  change (next_holder (send_bucket (mkState
            (forwarded_bucket env (unit_data event) holder) (ActiveStatus [])
            (stored s))))
    with holder.
  exists [Log [Text "RelationChanged event detected..."];
          Log [Text "Checking cycles complete..."];
          Write (Set_cycles_complete (cycles_out env (unit_data event)));
          Log [Text "Updating token and sending to next holder..."]].
  exists ((if 0 <? delay (stored s) then [Sleep (delay (stored s))] else [])
          ++ [Write (Set_message m);
              Write (Set_origin (origin (unit_data event)));
              Write (Set_next_holder holder)]
          ++ (if (origin (unit_data event) =? name (self_unit env))%string then []
              else [Write (Set_cycles_complete (cycles_complete (unit_data event)))])
          ++ [Write (Set_times_passed (times_passed (unit_data event) + 1));
              Write (Set_times_received (times_received (unit_data event) + 1));
              Write (Set_time_elapsed (elapsed_out env (unit_data event)));
              Write (Set_timestamp (time_time env))]).
  split; [|split; [|split; [|split; [|split; [|split; [|split]]]]]].
  - destruct (0 <? delay (stored s));
      destruct (origin (unit_data event) =? name (self_unit env))%string;
      reflexivity.
  - intros e [<-|[<-|[<-|[<-|[]]]]]; exact I.
  - intros e He.
    destruct (0 <? delay (stored s));
      destruct (origin (unit_data event) =? name (self_unit env))%string;
      cbn in He;
      repeat (destruct He as [<-|He]; [exact I|]); destruct He.
  - reflexivity.
  - intros a [H|[H|[H|[H|[]]]]]; try discriminate H.
    injection H as <-. reflexivity.
  - cbn. auto.
  - intros Hd. apply Z.ltb_lt in Hd. rewrite Hd. cbn. auto.
  - unfold elapsed_out.
    destruct (0 <? delay (stored s));
      destruct (origin (unit_data event) =? name (self_unit env))%string;
      cbn; auto 20.
Qed.

Lemma snapshot_shown_then_cleared_witness :
  exists before after,
    effects_of B_receives =
      before
      ++ [StatusSet
            (ActiveStatus
               [Text "M: "; Text "hello"; Text " H: "; Text "b/0";
                Text " P: "; Text "1"; Text " R: "; Text "1";
                Text " C: "; Text "0"; Text " T: "; FloatFixed2 0%float])]
      ++ after
      ++ [StatusSet (ActiveStatus [])] /\
    (forall e, In e before -> match e with StatusSet _ | Sleep _ => False | _ => True end) /\
    (forall e, In e after -> match e with StatusSet _ => False | _ => True end) /\
    status (state_of B_receives) = ActiveStatus [] /\
    (forall a, In (Write a) before -> a = Set_cycles_complete 0) /\
    In (Write (Set_cycles_complete 0)) before /\
    (0 < 0 -> In (Sleep 0) after) /\
    In (Write (Set_message "hello")) after /\
    In (Write (Set_origin "a/0")) after /\
    In (Write (Set_next_holder "a/0")) after /\
    In (Write (Set_times_passed 2)) after /\
    In (Write (Set_times_received 1)) after /\
    In (Write (Set_time_elapsed 10%float)) after /\
    In (Write (Set_timestamp 110%float)) after.
Proof.
  apply (snapshot_shown_then_cleared (env_B None 110%float)
           (mkRelationChanged (token_from_A 100)) initial_state
           (state_of B_receives) (effects_of B_receives) "hello").
  - reflexivity.
  - discriminate.
  - reflexivity.
  - exact B_receives_completes.
Defined.

(** C8, as the claim has it, fails: when [unit_B] has forwarded the token of
    [unit_A] its status is the empty active status, not the snapshot of the
    received token. *)
Lemma snapshot_not_visible_counterexample :
  completion_of B_receives = Normal tt /\
  status (state_of B_receives) = ActiveStatus [] /\
  status (state_of B_receives) <> ActiveStatus (snapshot_message (token_from_A 100)).
Proof.
  split; [reflexivity|split; [reflexivity|]].
  vm_compute. discriminate.
Qed.

(* ================================================================= *)
(** ** Handlers do not read the status *)

Section StatusBlind.

Context {A B : Type}.

Lemma blind_ret (a : A) : status_blind (ret a).
Proof. intros s1 s2 H. cbn. auto. Qed.

Lemma blind_raise (e : Exn) : status_blind (@raise A e).
Proof. intros s1 s2 H. cbn. auto. Qed.

Lemma blind_return : status_blind (@return_ A).
Proof. intros s1 s2 H. cbn. auto. Qed.

Lemma blind_bind (m : M A) (k : A -> M B) :
  status_blind m -> (forall a, status_blind (k a)) -> status_blind (bind m k).
Proof.
  intros Hm Hk s1 s2 Hs.
  specialize (Hm s1 s2 Hs). unfold bind.
  destruct (m s1) as [[c1 s1'] t1], (m s2) as [[c2 s2'] t2].
  cbn in Hm. destruct Hm as (<- & <- & Hs').
  destruct c1 as [a| |e]; cbn; auto.
  specialize (Hk a s1' s2' Hs').
  destruct (k a s1') as [[d1 r1] u1], (k a s2') as [[d2 r2] u2].
  cbn in *. destruct Hk as (<- & <- & Hr). auto.
Qed.

Lemma traced_ret (a : A) : status_traced (ret a).
Proof. intros s. reflexivity. Qed.

Lemma traced_raise (e : Exn) : status_traced (@raise A e).
Proof. intros s. reflexivity. Qed.

Lemma traced_return : status_traced (@return_ A).
Proof. intros s. reflexivity. Qed.

Lemma traced_bind (m : M A) (k : A -> M B) :
  status_traced m -> (forall a, status_traced (k a)) -> status_traced (bind m k).
Proof.
  intros Hm Hk s.
  specialize (Hm s). unfold bind.
  destruct (m s) as [[c1 s1] t1]. cbn in Hm.
  destruct c1 as [a| |e]; cbn; auto.
  specialize (Hk a s1).
  destruct (k a s1) as [[d1 r1] u1]. cbn in *.
  unfold last_status in *. now rewrite fold_left_app, <- Hm.
Qed.

End StatusBlind.

Lemma blind_emit e : status_blind (emit e).
Proof. intros s1 s2 H. cbn. auto. Qed.

Lemma blind_set_status st : status_blind (set_status st).
Proof. intros s1 s2 [Hb Hs]. cbn. repeat split; assumption. Qed.

Lemma blind_get_stored : status_blind get_stored.
Proof. intros s1 s2 [Hb Hs]. cbn. rewrite Hs. repeat split; assumption. Qed.

Lemma blind_update_stored f : status_blind (update_stored f).
Proof. intros s1 s2 [Hb Hs]. cbn. rewrite Hs. repeat split; assumption. Qed.

Lemma blind_get_send_bucket : status_blind get_send_bucket.
Proof. intros s1 s2 [Hb Hs]. cbn. rewrite Hb. repeat split; assumption. Qed.

Lemma blind_assign a : status_blind (assign a).
Proof.
  intros s1 s2 [Hb Hs]. unfold assign.
  destruct (checker a); cbn; rewrite ?Hb; repeat split; assumption.
Qed.

Lemma blind_call m : status_blind m -> status_blind (call m).
Proof.
  intros Hm s1 s2 Hs. specialize (Hm s1 s2 Hs). unfold call.
  destruct (m s1) as [[c1 s1'] t1], (m s2) as [[c2 s2'] t2].
  cbn in Hm. destruct Hm as (<- & <- & Hs').
  destruct c1; cbn; auto.
Qed.

Lemma traced_emit_log msg : status_traced (logger_info msg).
Proof. intros s. reflexivity. Qed.

Lemma traced_sleep d : status_traced (time_sleep d).
Proof. intros s. reflexivity. Qed.

Lemma traced_set_status st : status_traced (set_status st).
Proof. intros s. reflexivity. Qed.

Lemma traced_get_stored : status_traced get_stored.
Proof. intros s. reflexivity. Qed.

Lemma traced_update_stored f : status_traced (update_stored f).
Proof. intros s. reflexivity. Qed.

Lemma traced_get_send_bucket : status_traced get_send_bucket.
Proof. intros s. reflexivity. Qed.

Lemma traced_assign a : status_traced (assign a).
Proof. intros s. unfold assign. destruct (checker a); reflexivity. Qed.

Lemma traced_call m : status_traced m -> status_traced (call m).
Proof.
  intros Hm s. specialize (Hm s). unfold call.
  destruct (m s) as [[c1 s1] t1]. destruct c1; exact Hm.
Qed.

Create HintDb blind.

#[local] Hint Resolve blind_ret blind_raise blind_return blind_emit
  blind_set_status blind_get_stored blind_update_stored blind_get_send_bucket
  blind_assign blind_call : blind.
#[local] Hint Resolve traced_ret traced_raise traced_return traced_emit_log
  traced_sleep traced_set_status traced_get_stored traced_update_stored
  traced_get_send_bucket traced_assign traced_call : blind.

Ltac blind_step :=
  match goal with
  | |- status_blind (bind _ _) => apply blind_bind; [|intros ?]
  | |- status_traced (bind _ _) => apply traced_bind; [|intros ?]
  | |- context [if ?c then _ else _] => destruct c
  | |- context [match ?o with Some _ => _ | None => _ end] => destruct o
  | |- context [match ?l with [] => _ | _ :: _ => _ end] => destruct l
  | |- _ => solve [unfold logger_info, time_sleep, pass; auto with blind]
  end.

Lemma handle_status_blind env ev : status_blind (handle env ev).
Proof.
  destruct ev as [event| |event]; cbn [handle]; apply blind_call.
  - unfold _on_ping_action, target_names, item0, params_item. repeat blind_step.
  - unfold _on_config_changed. repeat blind_step.
  - unfold _on_ping_receive_relation_changed, target_names, item0.
    repeat blind_step.
Qed.

Lemma handle_status_traced env ev : status_traced (handle env ev).
Proof.
  destruct ev as [event| |event]; cbn [handle]; apply traced_call.
  - unfold _on_ping_action, target_names, item0, params_item. repeat blind_step.
  - unfold _on_config_changed. repeat blind_step.
  - unfold _on_ping_receive_relation_changed, target_names, item0.
    repeat blind_step.
Qed.

Lemma last_status_set t st a b :
  In (StatusSet st) t -> last_status t a = last_status t b.
Proof.
  unfold last_status. revert a b.
  induction t as [|e t IH]; intros a b Hin; [destruct Hin|].
  destruct Hin as [->|Hin]; cbn.
  - reflexivity.
  - destruct e; auto.
Qed.

(** C9.  The halt branch changes the status and nothing else, and nothing a
    handler does depends on the status: whatever event comes next, the unit
    that has just halted completes it as it would have without the halt, with
    the same effects (bucket writes included), the same bucket and the same
    stored tunables; even the status is the same as soon as the handler sets
    one. *)
Theorem halt_is_not_remembered env event s m env' ev' :
  data_message (unit_data event) = Some m -> m <> "" ->
  origin (unit_data event) = name (self_unit env) ->
  max_cycles (stored s) = Some (cycles_complete (unit_data event) + 1) ->
  let halted := state_of (handle env (PingReceiveRelationChanged event) s) in
  send_bucket halted = send_bucket s /\
  stored halted = stored s /\
  completion_of (handle env' ev' halted) = completion_of (handle env' ev' s) /\
  effects_of (handle env' ev' halted) = effects_of (handle env' ev' s) /\
  send_bucket (state_of (handle env' ev' halted)) =
    send_bucket (state_of (handle env' ev' s)) /\
  stored (state_of (handle env' ev' halted)) = stored (state_of (handle env' ev' s)) /\
  ((exists st, In (StatusSet st) (effects_of (handle env' ev' s))) ->
   status (state_of (handle env' ev' halted)) = status (state_of (handle env' ev' s))).
Proof.
  intros Hm Hne Horigin Hmax halted.
  assert (Hh : max_cycles_reached env s (unit_data event) = true).
  { unfold max_cycles_reached. rewrite Horigin, String.eqb_refl, Hmax.
    cbn. apply Z.eqb_refl. }
  assert (Hagree : agree halted s).
  { subst halted. rewrite (halt_run env event s m Hm Hne Hh). split; reflexivity. }
  destruct Hagree as [Hbucket Hstored].
  destruct (handle_status_blind env' ev' halted s (conj Hbucket Hstored))
    as (Hc & Ht & Hb & Hs).
  repeat split; try assumption.
  intros [st Hin].
  rewrite (handle_status_traced env' ev' halted), (handle_status_traced env' ev' s), Ht.
  apply (last_status_set _ st), Hin.
Qed.

Lemma halt_is_not_remembered_witness :
  send_bucket (state_of A_halts) = empty_bucket /\
  stored (state_of A_halts) = mkStored (Some 1) 0 /\
  completion_of
    (handle (env_A (Some 1) 130%float) (PingAction (mkAction (Some "again")))
       (state_of A_halts)) =
    completion_of
      (handle (env_A (Some 1) 130%float) (PingAction (mkAction (Some "again")))
         (state_with_limit (Some 1))) /\
  effects_of
    (handle (env_A (Some 1) 130%float) (PingAction (mkAction (Some "again")))
       (state_of A_halts)) =
    effects_of
      (handle (env_A (Some 1) 130%float) (PingAction (mkAction (Some "again")))
         (state_with_limit (Some 1))) /\
  send_bucket
    (state_of
       (handle (env_A (Some 1) 130%float) (PingAction (mkAction (Some "again")))
          (state_of A_halts))) =
    send_bucket
      (state_of
         (handle (env_A (Some 1) 130%float) (PingAction (mkAction (Some "again")))
            (state_with_limit (Some 1)))) /\
  stored
    (state_of
       (handle (env_A (Some 1) 130%float) (PingAction (mkAction (Some "again")))
          (state_of A_halts))) =
    stored
      (state_of
         (handle (env_A (Some 1) 130%float) (PingAction (mkAction (Some "again")))
            (state_with_limit (Some 1)))) /\
  ((exists st,
      In (StatusSet st)
        (effects_of
           (handle (env_A (Some 1) 130%float) (PingAction (mkAction (Some "again")))
              (state_with_limit (Some 1))))) ->
   status
     (state_of
        (handle (env_A (Some 1) 130%float) (PingAction (mkAction (Some "again")))
           (state_of A_halts))) =
     status
       (state_of
          (handle (env_A (Some 1) 130%float) (PingAction (mkAction (Some "again")))
             (state_with_limit (Some 1))))).
Proof.
  apply (halt_is_not_remembered (env_A (Some 1) 120%float)
           (mkRelationChanged (token_from_B 10 110)) (state_with_limit (Some 1))
           "hello" (env_A (Some 1) 130%float) (PingAction (mkAction (Some "again")))).
  - reflexivity.
  - discriminate.
  - reflexivity.
  - reflexivity.
Defined.

(** After the halt of the scenario a new injection is written in full. *)
Lemma inject_after_halt :
  completion_of A_halts = Normal tt /\
  status (state_of A_halts) = ActiveStatus (completion_message (token_from_B 10 110)) /\
  send_bucket
    (state_of
       (handle (env_A (Some 1) 130%float) (PingAction (mkAction (Some "again")))
          (state_of A_halts))) =
    mkBucket (Some "again") (Some "a/0") (Some "b/0")
      (Some 0) (Some 1) (Some 0) (Some 0%float) (Some 130%float).
Proof. repeat split; reflexivity. Qed.

(* ================================================================= *)
(** ** A limit of zero laps *)

Ltac split_goal :=
  eval_goal; cbn [max_cycles delay];
  match goal with
  | |- context [if ?c then _ else _] => destruct c eqn:?
  | |- context [match ping_send ?e with _ => _ end] => destruct (ping_send e) eqn:?
  | |- context [match map name ?l with _ => _ end] => destruct (map name l) eqn:?
  end.

(** With a received lap count in range, the handler run with a stored limit of
    zero is the run with no stored limit. *)
Lemma receive_zero_limit env event b st d :
  0 <= cycles_complete (unit_data event) ->
  handle env (PingReceiveRelationChanged event) (mkState b st (mkStored (Some 0) d)) =
    (completion_of
       (handle env (PingReceiveRelationChanged event) (mkState b st (mkStored None d))),
     with_limit (Some 0)
       (state_of
          (handle env (PingReceiveRelationChanged event)
             (mkState b st (mkStored None d)))),
     effects_of
       (handle env (PingReceiveRelationChanged event) (mkState b st (mkStored None d)))).
Proof.
  intros Hcc.
  assert (Hzero : opt_int_eqb (Some 0) (Some (cycles_complete (unit_data event) + 1))
                  = false) by (unfold opt_int_eqb; apply Z.eqb_neq; lia).
  assert (Hnone : opt_int_eqb None (Some (cycles_complete (unit_data event) + 1))
                  = false) by reflexivity.
  unfold handle, _on_ping_receive_relation_changed.
  remember (unit_data event) as recv eqn:Hrecv.
  destruct (data_message recv) as [m|]; [destruct (m =? "")%string|];
    [reflexivity| |reflexivity].
  destruct (origin recv =? name (self_unit env))%string.
  - eval_goal. cbn [max_cycles delay]. rewrite Hzero, Hnone.
    repeat split_goal; reflexivity.
  - repeat split_goal; reflexivity.
Qed.

(** C10.  With a stored [max_cycles] of zero and a received lap count in its
    range, the halt test is false, as it is with [max_cycles] unset, and
    the handler does exactly what it does with [max_cycles] unset: it
    completes alike, with the same effects, and leaves the same bucket, status
    and delay, the stored limit itself staying zero. *)
Theorem zero_limit_never_halts env event s :
  0 <= cycles_complete (unit_data event) ->
  max_cycles (stored s) = Some 0 ->
  max_cycles_reached env s (unit_data event) = false /\
  max_cycles_reached env (with_limit None s) (unit_data event) = false /\
  handle env (PingReceiveRelationChanged event) s =
    (completion_of (handle env (PingReceiveRelationChanged event) (with_limit None s)),
     with_limit (Some 0)
       (state_of (handle env (PingReceiveRelationChanged event) (with_limit None s))),
     effects_of (handle env (PingReceiveRelationChanged event) (with_limit None s))).
Proof.
  intros Hcc Hmax. split; [|split].
  - unfold max_cycles_reached. rewrite Hmax. unfold opt_int_eqb.
    replace (0 =? cycles_complete (unit_data event) + 1) with false
      by (symmetry; apply Z.eqb_neq; lia).
    apply andb_false_r.
  - unfold max_cycles_reached, with_limit. cbn. apply andb_false_r.
  - destruct s as [b st [limit d]]. cbn in Hmax. subst limit.
    change (with_limit None (mkState b st (mkStored (Some 0) d)))
      with (mkState b st (mkStored None d)).
    apply receive_zero_limit, Hcc.
Qed.

Lemma zero_limit_never_halts_witness :
  max_cycles_reached (env_A (Some 0) 120%float) (state_with_limit (Some 0))
    (token_from_B 10 110) = false /\
  max_cycles_reached (env_A (Some 0) 120%float)
    (with_limit None (state_with_limit (Some 0))) (token_from_B 10 110) = false /\
  handle (env_A (Some 0) 120%float)
    (PingReceiveRelationChanged (mkRelationChanged (token_from_B 10 110)))
    (state_with_limit (Some 0)) =
    (completion_of
       (handle (env_A (Some 0) 120%float)
          (PingReceiveRelationChanged (mkRelationChanged (token_from_B 10 110)))
          (with_limit None (state_with_limit (Some 0)))),
     with_limit (Some 0)
       (state_of
          (handle (env_A (Some 0) 120%float)
             (PingReceiveRelationChanged (mkRelationChanged (token_from_B 10 110)))
             (with_limit None (state_with_limit (Some 0))))),
     effects_of
       (handle (env_A (Some 0) 120%float)
          (PingReceiveRelationChanged (mkRelationChanged (token_from_B 10 110)))
          (with_limit None (state_with_limit (Some 0))))).
Proof.
  apply (zero_limit_never_halts (env_A (Some 0) 120%float)
           (mkRelationChanged (token_from_B 10 110)) (state_with_limit (Some 0))).
  - discriminate.
  - reflexivity.
Defined.

(* ================================================================= *)
(** ** Binary floating point: order and rounding

    The kernel's [float] is specified by [SpecFloat]: a sum or difference is
    the exact one, rounded to the nearest number of the format.  What the
    elapsed time needs of it: rounding keeps the order, so a difference of
    ordered numbers is not negative and adding one does not give less. *)

Section IEEE.

Variables prec emax : Z.
Hypothesis prec_positive : 0 < prec.

Local Abbreviation fexp := (SpecFloat.fexp prec emax).
Local Abbreviation emin := (SpecFloat.emin prec emax).

Lemma digits2_pos_bounds (m : positive) :
  2 ^ (Zpos (digits2_pos m) - 1) <= Zpos m < 2 ^ Zpos (digits2_pos m).
Proof.
  induction m as [m IH|m IH|]; cbn [digits2_pos].
  - rewrite Pos2Z.inj_succ.
    replace (Z.succ (Zpos (digits2_pos m)) - 1) with (Z.succ (Zpos (digits2_pos m) - 1)) by lia.
    rewrite !Z.pow_succ_r by lia. lia.
  - rewrite Pos2Z.inj_succ.
    replace (Z.succ (Zpos (digits2_pos m)) - 1) with (Z.succ (Zpos (digits2_pos m) - 1)) by lia.
    rewrite !Z.pow_succ_r by lia. lia.
  - cbn. lia.
Qed.

Lemma fexp_monotone a b : a <= b -> fexp a <= fexp b.
Proof. unfold SpecFloat.fexp. lia. Qed.

Lemma fexp_above_emin a : emin <= fexp a.
Proof. unfold SpecFloat.fexp. lia. Qed.

Lemma fexp_normal a : emin < fexp a -> fexp a = a - prec.
Proof. unfold SpecFloat.fexp. lia. Qed.

Lemma shr_1_m mrs : 0 <= shr_m mrs -> shr_m (shr_1 mrs) = shr_m mrs / 2.
Proof.
  destruct mrs as [m r s]. cbn [shr_m]. intros Hm.
  destruct m as [|p|p]; [reflexivity| |lia].
  destruct p as [p|p|]; cbn [shr_1 shr_m].
  - rewrite Pos2Z.inj_xI. apply Z.div_unique with 1; lia.
  - rewrite Pos2Z.inj_xO. apply Z.div_unique with 0; lia.
  - reflexivity.
Qed.

Lemma shr_1_nonneg mrs : 0 <= shr_m mrs -> 0 <= shr_m (shr_1 mrs).
Proof.
  intros Hm. rewrite shr_1_m by assumption. apply Z.div_pos; lia.
Qed.

Lemma iter_shr_1_m p : forall mrs,
  0 <= shr_m mrs ->
  shr_m (iter_pos shr_1 p mrs) = shr_m mrs / 2 ^ Zpos p.
Proof.
  assert (Hpow : forall q, 0 < 2 ^ Zpos q) by (intros; apply Z.pow_pos_nonneg; lia).
  assert (Hdiv : forall a q, 0 <= a -> 0 <= a / 2 ^ Zpos q)
    by (intros; apply Z.div_pos; auto).
  induction p as [p IH|p IH|]; intros mrs Hm; cbn [iter_pos].
  - pose proof (shr_1_nonneg mrs Hm) as H1.
    pose proof (IH _ H1) as E1.
    assert (H2 : 0 <= shr_m (iter_pos shr_1 p (shr_1 mrs))) by (rewrite E1; auto).
    rewrite (IH _ H2), E1, shr_1_m by assumption.
    rewrite !Z.div_div by (pose proof (Hpow p); lia).
    f_equal. rewrite <- !Z.pow_add_r, <- Z.pow_succ_r by lia. f_equal. lia.
  - pose proof (IH _ Hm) as E1.
    assert (H2 : 0 <= shr_m (iter_pos shr_1 p mrs)) by (rewrite E1; auto).
    rewrite (IH _ H2), E1.
    rewrite !Z.div_div by (pose proof (Hpow p); lia).
    f_equal. rewrite <- !Z.pow_add_r by lia. f_equal. lia.
  - rewrite shr_1_m by assumption. reflexivity.
Qed.

Lemma shr_fexp_spec M E l :
  0 <= M ->
  snd (shr_fexp prec emax M E l) = Z.max E (fexp (Zdigits2 M + E)) /\
  shr_m (fst (shr_fexp prec emax M E l)) =
    M / 2 ^ (snd (shr_fexp prec emax M E l) - E).
Proof.
  intros HM. unfold shr_fexp, shr.
  assert (Hloc : shr_m (shr_record_of_loc M l) = M)
    by (destruct l as [|[]]; reflexivity).
  destruct (fexp (Zdigits2 M + E) - E) as [|p|p] eqn:Hn; cbn [fst snd].
  - split; [lia|]. rewrite Z.sub_diag, Z.pow_0_r, Z.div_1_r. exact Hloc.
  - split; [lia|]. rewrite iter_shr_1_m by (rewrite Hloc; exact HM).
    rewrite Hloc. f_equal. f_equal. lia.
  - split; [lia|]. rewrite Z.sub_diag, Z.pow_0_r, Z.div_1_r. exact Hloc.
Qed.

Lemma iter_xO_value m d : Zpos (Pos.iter xO m d) = Zpos m * 2 ^ Zpos d.
Proof.
  change (Pos.iter xO m d) with (shift_pos d m).
  rewrite shift_pos_correct, Zpower_pos_nat, Zpower_nat_Z, positive_nat_Z. ring.
Qed.

Lemma shl_align_spec mx ex ex' :
  snd (shl_align mx ex ex') = Z.min ex ex' /\
  Zpos (fst (shl_align mx ex ex')) = Zpos mx * 2 ^ (ex - snd (shl_align mx ex ex')).
Proof.
  unfold shl_align.
  destruct (ex' - ex) as [|d|d] eqn:Hd; cbn [fst snd].
  - split; [lia|]. rewrite Z.sub_diag. cbn. lia.
  - split; [lia|]. rewrite Z.sub_diag. cbn. lia.
  - split; [lia|]. rewrite iter_xO_value. f_equal. f_equal. lia.
Qed.

Lemma digits2_pos_unique m k :
  2 ^ (k - 1) <= Zpos m < 2 ^ k -> Zpos (digits2_pos m) = k.
Proof.
  intros [Hlo Hhi]. pose proof (digits2_pos_bounds m) as [Dlo Dhi].
  destruct (Z.lt_trichotomy (Zpos (digits2_pos m)) k) as [H|[H|H]]; [|exact H|].
  - assert (2 ^ Zpos (digits2_pos m) <= 2 ^ (k - 1))
      by (apply Z.pow_le_mono_r; lia). lia.
  - assert (0 <= k).
    { destruct (Z.le_gt_cases 0 k); [assumption|].
      rewrite (Z.pow_neg_r 2 k) in Hhi by lia. lia. }
    assert (2 ^ k <= 2 ^ (Zpos (digits2_pos m) - 1))
      by (apply Z.pow_le_mono_r; lia). lia.
Qed.

Lemma digits2_pos_shift m d :
  0 <= d -> forall m', Zpos m' = Zpos m * 2 ^ d ->
  Zpos (digits2_pos m') = Zpos (digits2_pos m) + d.
Proof.
  intros Hd m' Hm'. apply digits2_pos_unique. rewrite Hm'.
  pose proof (digits2_pos_bounds m) as [Dlo Dhi].
  assert (0 < 2 ^ d) by (apply Z.pow_pos_nonneg; lia).
  replace (Zpos (digits2_pos m) + d - 1) with (Zpos (digits2_pos m) - 1 + d) by lia.
  rewrite !Z.pow_add_r by lia. split; nia.
Qed.

(** If [x * 2 ^ k <= m] then [m] has at least [k] more digits than [x]. *)
Lemma digits2_pos_le x m k :
  0 <= k -> Zpos x * 2 ^ k <= Zpos m ->
  Zpos (digits2_pos x) + k <= Zpos (digits2_pos m).
Proof.
  intros Hk Hle.
  pose proof (digits2_pos_bounds x) as [Xlo _].
  pose proof (digits2_pos_bounds m) as [_ Mhi].
  assert (H : 2 ^ (Zpos (digits2_pos x) - 1 + k) < 2 ^ Zpos (digits2_pos m)).
  { rewrite Z.pow_add_r by lia.
    assert (0 < 2 ^ k) by (apply Z.pow_pos_nonneg; lia). nia. }
  apply Z.pow_lt_mono_r_iff in H; lia.
Qed.

Lemma round_nearest_even_bounds m l :
  m <= round_nearest_even m l <= m + 1.
Proof.
  unfold round_nearest_even. destruct l as [|[]]; try lia.
  destruct (Z.even m); lia.
Qed.

Lemma div_pow2_positive m k :
  0 <= k <= Zpos (digits2_pos m) - 1 -> 1 <= Zpos m / 2 ^ k.
Proof.
  intros Hk. pose proof (digits2_pos_bounds m) as [Dlo _].
  assert (0 < 2 ^ k) by (apply Z.pow_pos_nonneg; lia).
  apply Z.div_le_lower_bound; [assumption|].
  assert (2 ^ k <= 2 ^ (Zpos (digits2_pos m) - 1)) by (apply Z.pow_le_mono_r; lia).
  lia.
Qed.

(** The result of rounding the positive value [m * 2 ^ ez]: the mantissa is
    cut at the exponent [t] of the format, moved up by at most one unit, and
    cut once more if that carried into a further digit. *)
Lemma binary_round_spec s m ez :
  exists m1 mr,
    m1 = (if fexp (Zpos (digits2_pos m) + ez) <=? ez
          then Zpos m * 2 ^ (ez - fexp (Zpos (digits2_pos m) + ez))
          else Zpos m / 2 ^ (fexp (Zpos (digits2_pos m) + ez) - ez)) /\
    m1 <= mr <= m1 + 1 /\
    binary_round prec emax s m ez =
      match mr / 2 ^ (Z.max (fexp (Zpos (digits2_pos m) + ez))
                        (fexp (Zdigits2 mr + fexp (Zpos (digits2_pos m) + ez)))
                      - fexp (Zpos (digits2_pos m) + ez)) with
      | Z0 => S754_zero s
      | Zpos p =>
          if Z.max (fexp (Zpos (digits2_pos m) + ez))
               (fexp (Zdigits2 mr + fexp (Zpos (digits2_pos m) + ez)))
             <=? emax - prec
          then S754_finite s p
                 (Z.max (fexp (Zpos (digits2_pos m) + ez))
                    (fexp (Zdigits2 mr + fexp (Zpos (digits2_pos m) + ez))))
          else S754_infinity s
      | Zneg _ => S754_nan
      end.
Proof.
  set (t := fexp (Zpos (digits2_pos m) + ez)).
  unfold binary_round. fold t.
  destruct (shl_align_spec m ez t) as [HE Hmz].
  destruct (shl_align m ez t) as [mz E]. cbn [fst snd] in HE, Hmz.
  assert (Hmag : Zpos (digits2_pos mz) + E = Zpos (digits2_pos m) + ez).
  { rewrite (digits2_pos_shift m (ez - E)) by (assumption || lia). lia. }
  unfold binary_round_aux.
  destruct (shr_fexp_spec (Zpos mz) E loc_Exact ltac:(lia)) as [He1 Hm1].
  destruct (shr_fexp prec emax (Zpos mz) E loc_Exact) as [mrs1 e1].
  cbn [fst snd] in He1, Hm1. cbn [Zdigits2] in He1. rewrite Hmag in He1. fold t in He1.
  assert (He1' : e1 = t) by lia. clear He1. subst e1.
  set (mr := round_nearest_even (shr_m mrs1) (loc_of_shr_record mrs1)).
  pose proof (round_nearest_even_bounds (shr_m mrs1) (loc_of_shr_record mrs1)) as Hmr.
  fold mr in Hmr.
  assert (Hm1pos : 0 <= shr_m mrs1).
  { rewrite Hm1. apply Z.div_pos; [lia|]. apply Z.pow_pos_nonneg; lia. }
  destruct (shr_fexp_spec mr t loc_Exact ltac:(lia)) as [He2 Hm2].
  destruct (shr_fexp prec emax mr t loc_Exact) as [mrs2 e2].
  cbn [fst snd] in He2, Hm2. subst e2.
  exists (shr_m mrs1), mr. split; [|split; [exact Hmr|]].
  - rewrite Hm1, Hmz. destruct (Z.leb_spec t ez).
    + replace E with t by lia. rewrite Z.sub_diag, Z.pow_0_r, Z.div_1_r. reflexivity.
    + replace E with ez by lia. rewrite Z.sub_diag, Z.pow_0_r, Z.mul_1_r. reflexivity.
  - rewrite Hm2. reflexivity.
Qed.

Lemma binary_round_nonneg m ez :
  SFleb (S754_zero false) (binary_round prec emax false m ez) = true.
Proof.
  destruct (binary_round_spec false m ez) as (m1 & mr & Hm1 & Hmr & ->).
  assert (0 <= m1).
  { subst m1. destruct (Z.leb_spec (fexp (Zpos (digits2_pos m) + ez)) ez).
    - assert (0 <= 2 ^ (ez - fexp (Zpos (digits2_pos m) + ez)))
        by (apply Z.pow_nonneg; lia). nia.
    - apply Z.div_pos; [lia|]. apply Z.pow_pos_nonneg; lia. }
  match goal with
  | |- context [match ?q with Z0 => _ | Zpos _ => _ | Zneg _ => _ end] =>
      assert (Hq : 0 <= q) by (apply Z.div_pos; [lia|apply Z.pow_pos_nonneg; lia]);
      destruct q as [|p|p]
  end.
  - reflexivity.
  - destruct (Z.max _ _ <=? emax - prec); reflexivity.
  - lia.
Qed.

Lemma pos_compare_cont_le a b :
  Zpos a <= Zpos b ->
  Pos.compare_cont Eq a b = Lt \/ Pos.compare_cont Eq a b = Eq.
Proof.
  intros H. change (Pos.compare_cont Eq a b) with (Pos.compare a b).
  destruct (Pos.compare_spec a b); auto. lia.
Qed.

(** Rounding [m * 2 ^ ez] gives at least any number of the format that the
    value is not less than. *)
Lemma binary_round_ge mx ex m ez :
  fexp (Zpos (digits2_pos mx) + ex) = ex ->
  ez <= ex ->
  Zpos mx * 2 ^ (ex - ez) <= Zpos m ->
  SFleb (S754_finite false mx ex) (binary_round prec emax false m ez) = true.
Proof.
  intros Hcanon Hez Hle.
  destruct (binary_round_spec false m ez) as (m1 & mr & Hm1 & Hmr & ->).
  set (t := fexp (Zpos (digits2_pos m) + ez)) in *.
  assert (Hmag : Zpos (digits2_pos mx) + ex <= Zpos (digits2_pos m) + ez).
  { pose proof (digits2_pos_le mx m (ex - ez) ltac:(lia) Hle). lia. }
  assert (Ht : ex <= t) by (rewrite <- Hcanon; apply fexp_monotone, Hmag).
  assert (Htmin : emin <= t) by apply fexp_above_emin.
  assert (Hexmin : emin <= ex) by (rewrite <- Hcanon; apply fexp_above_emin).
  pose proof (digits2_pos_bounds m) as [Dlo Dhi].
  assert (Hm1pos : 1 <= m1 /\ (t = ex -> Zpos mx <= m1)).
  { subst m1. destruct (Z.leb_spec t ez) as [Hl|Hl].
    - assert (t = ez) by lia. assert (ex = ez) by lia.
      replace (ez - t) with 0 by lia.
      replace (ex - ez) with 0 in Hle by lia.
      rewrite Z.pow_0_r in *. lia.
    - split.
      + destruct (Z.eq_dec t ex) as [Heq|Hneq].
        * apply Z.div_le_lower_bound; [apply Z.pow_pos_nonneg; lia|].
          rewrite Heq.
          assert (0 < 2 ^ (ex - ez)) by (apply Z.pow_pos_nonneg; lia). nia.
        * apply div_pow2_positive. split; [lia|].
          assert (Hn : emin < t) by lia.
          apply fexp_normal in Hn. lia.
      + intros Heq. rewrite Heq.
        apply Z.div_le_lower_bound; [apply Z.pow_pos_nonneg; lia|]. lia. }
  destruct Hm1pos as [Hm1pos Hm1x].
  set (e2 := Z.max t (fexp (Zdigits2 mr + t))).
  assert (He2 : t <= e2) by (subst e2; lia).
  assert (Hm2 : 1 <= mr / 2 ^ (e2 - t) /\ (e2 = ex -> Zpos mx <= mr / 2 ^ (e2 - t))).
  { destruct (Z.eq_dec e2 t) as [Heq|Hneq].
    - rewrite Heq, Z.sub_diag, Z.pow_0_r, Z.div_1_r. split; [lia|].
      intros Hex. specialize (Hm1x Hex). lia.
    - split; [|lia].
      destruct mr as [|pr|pr]; try lia. cbn [Zdigits2] in e2.
      apply div_pow2_positive. split; [lia|].
      assert (He2' : e2 = fexp (Zpos (digits2_pos pr) + t)) by (subst e2; lia).
      assert (Hn : emin < fexp (Zpos (digits2_pos pr) + t)) by lia.
      apply fexp_normal in Hn. lia. }
  destruct Hm2 as [Hm2 Hm2x].
  destruct (mr / 2 ^ (e2 - t)) as [|p|p] eqn:Hq; try lia.
  destruct (e2 <=? emax - prec); [|reflexivity].
  unfold SFleb, SFcompare.
  destruct (Z.compare_spec ex e2) as [Heq|Hlt|Hgt]; [|reflexivity|lia].
  destruct (pos_compare_cont_le mx p) as [->| ->]; [|reflexivity|reflexivity].
  apply Hm2x. symmetry. exact Heq.
Qed.

Lemma valid_canonical s m e :
  SpecFloat.valid_binary prec emax (S754_finite s m e) = true ->
  fexp (Zpos (digits2_pos m) + e) = e.
Proof.
  cbn [SpecFloat.valid_binary]. unfold bounded, canonical_mantissa.
  intros H. apply andb_true_iff in H as [H _]. apply Z.eqb_eq, H.
Qed.

Lemma SFleb_refl_finite s m e :
  SFleb (S754_finite s m e) (S754_finite s m e) = true.
Proof.
  unfold SFleb, SFcompare. rewrite Z.compare_refl.
  change (Pos.compare_cont Eq m m) with (Pos.compare m m).
  rewrite Pos.compare_refl. destruct s; reflexivity.
Qed.

(** Adding a number that is not negative does not give less. *)
Lemma SFadd_ge x d :
  SpecFloat.valid_binary prec emax x = true ->
  SFleb (S754_zero false) x = true ->
  SFleb (S754_zero false) d = true ->
  SFleb x (SFadd prec emax x d) = true.
Proof.
  intros Vx Hx Hd.
  destruct x as [sx|[]| |[] mx ex]; try discriminate Hx;
    destruct d as [sd|[]| |[] md ed]; try discriminate Hd;
    try reflexivity; try apply SFleb_refl_finite.
  - destruct sx, sd; reflexivity.
  - cbn [SFadd cond_Zopp].
    destruct (shl_align_spec mx ex (Z.min ex ed)) as [Ex Mx].
    destruct (shl_align_spec md ed (Z.min ex ed)) as [Ed Md].
    destruct (shl_align mx ex (Z.min ex ed)) as [mx' ex'].
    destruct (shl_align md ed (Z.min ex ed)) as [md' ed'].
    cbn [fst snd] in *. cbn [Z.add binary_normalize].
    apply binary_round_ge.
    + apply (valid_canonical false), Vx.
    + lia.
    + rewrite Pos2Z.inj_add, Mx. replace ex' with (Z.min ex ed) by lia. lia.
Qed.

(** Two numbers of the format that compare as their exponents and mantissas
    do are ordered as values. *)
Lemma canonical_le mt et mn en :
  fexp (Zpos (digits2_pos mt) + et) = et ->
  fexp (Zpos (digits2_pos mn) + en) = en ->
  SFleb (S754_finite false mt et) (S754_finite false mn en) = true ->
  et <= en /\ Zpos mt <= Zpos mn * 2 ^ (en - et).
Proof.
  intros Ct Cn Hle. unfold SFleb, SFcompare in Hle.
  destruct (Z.compare_spec et en) as [Heq|Hlt|Hgt]; [| |discriminate Hle].
  - subst en. rewrite Z.sub_diag, Z.pow_0_r, Z.mul_1_r. split; [lia|].
    change (Pos.compare_cont Eq mt mn) with (Pos.compare mt mn) in Hle.
    destruct (Pos.compare_spec mt mn); try discriminate Hle; lia.
  - split; [lia|].
    assert (Hmag : Zpos (digits2_pos mt) + et < Zpos (digits2_pos mn) + en).
    { destruct (Z.lt_ge_cases (Zpos (digits2_pos mt) + et) (Zpos (digits2_pos mn) + en))
        as [H|H]; [exact H|].
      apply fexp_monotone in H. lia. }
    pose proof (digits2_pos_bounds mt) as [_ Thi].
    pose proof (digits2_pos_bounds mn) as [Nlo _].
    assert (H1 : 2 ^ Zpos (digits2_pos mt) <= 2 ^ (Zpos (digits2_pos mn) - 1 + (en - et)))
      by (apply Z.pow_le_mono_r; lia).
    rewrite Z.pow_add_r in H1 by lia.
    assert (0 < 2 ^ (en - et)) by (apply Z.pow_pos_nonneg; lia).
    nia.
Qed.

(** Subtracting from a number one that is neither negative nor greater gives
    a number that is not negative, unless both are infinite. *)
Lemma SFsub_nonneg n t :
  SpecFloat.valid_binary prec emax n = true ->
  SpecFloat.valid_binary prec emax t = true ->
  SFleb (S754_zero false) t = true ->
  SFleb t n = true ->
  SFsub prec emax n t <> S754_nan ->
  SFleb (S754_zero false) (SFsub prec emax n t) = true.
Proof.
  intros Vn Vt Ht Htn Hnan.
  destruct t as [st|[]| |[] mt et]; try discriminate Ht;
    destruct n as [sn|[]| |[] mn en]; try discriminate Htn;
    try reflexivity; try (exfalso; apply Hnan; reflexivity).
  - destruct sn, st; reflexivity.
  - destruct (canonical_le mt et mn en) as [Hexp Hval];
      [apply (valid_canonical false), Vt|apply (valid_canonical false), Vn|exact Htn|].
    cbn [SFsub cond_Zopp].
    destruct (shl_align_spec mn en (Z.min en et)) as [En Mn].
    destruct (shl_align_spec mt et (Z.min en et)) as [Et Mt].
    destruct (shl_align mn en (Z.min en et)) as [mn' en'].
    destruct (shl_align mt et (Z.min en et)) as [mt' et'].
    cbn [fst snd] in *.
    assert (Hdiff : 0 <= Zpos mn' - Zpos mt').
    { rewrite Mn, Mt. replace en' with et by lia. replace et' with et by lia.
      rewrite Z.sub_diag, Z.pow_0_r. lia. }
    destruct (Zpos mn' - Zpos mt') as [|p|p] eqn:Hp; cbn [binary_normalize].
    + reflexivity.
    + apply binary_round_nonneg.
    + lia.
Qed.

End IEEE.

Lemma Prim2SF_zero : Prim2SF 0%float = S754_zero false.
Proof. reflexivity. Qed.

Lemma float_add_ge (a d : float) :
  (0 <=? a)%float = true -> (0 <=? d)%float = true ->
  (a <=? a + d)%float = true.
Proof.
  rewrite !leb_spec, add_spec, Prim2SF_zero. intros Ha Hd.
  apply SFadd_ge; try assumption; try apply Prim2SF_valid; reflexivity.
Qed.

Lemma float_sub_nonneg (n t : float) :
  (0 <=? t)%float = true -> (t <=? n)%float = true ->
  Prim2SF (n - t) <> S754_nan ->
  (0 <=? n - t)%float = true.
Proof.
  rewrite !leb_spec, sub_spec, Prim2SF_zero. intros Ht Htn Hnan.
  apply SFsub_nonneg; try assumption; try apply Prim2SF_valid; reflexivity.
Qed.

(** The elapsed time of the forwarding path, [a + (n - t)], is not less than
    [a] when [a] and [t] are in range, [t <= n], and the sum is accepted by
    the checker of [time_elapsed]. *)
Lemma elapsed_not_less (a t n : float) :
  (0 <=? a)%float = true -> (0 <=? t)%float = true ->
  (t <=? n)%float = true ->
  (0 <=? a + (n - t))%float = true ->
  (a <=? a + (n - t))%float = true.
Proof.
  intros Ha Ht Htn Hsum.
  apply float_add_ge; [exact Ha|].
  apply float_sub_nonneg; try assumption.
  intros Hnan. rewrite leb_spec, add_spec, Hnan, Prim2SF_zero in Hsum.
  destruct (Prim2SF a) as [|[]| |]; discriminate Hsum.
Qed.

(* ================================================================= *)
(** ** Elapsed time along a lineage *)

Lemma lineage_clock clocks tok :
  lineage clocks tok ->
  exists now earlier,
    clocks = now :: earlier /\
    timestamp tok = now /\
    time_elapsed tok = total (deltas clocks) /\
    (0 <=? time_elapsed tok)%float = true /\
    (0 <=? timestamp tok)%float = true.
Proof.
  induction 1 as [env event s s' t Hrun
                 | clocks recv env s s' t Hlin IH Hg Hh Hrun].
  - apply inject_inv in Hrun
      as (token & units & holder & rest & _ & _ & _ & Hnow & -> & _).
    exists (time_time env), []. repeat split; assumption.
  - destruct IH as (previous & earlier & -> & Hstamp & Helapsed & _ & _).
    destruct (hop_inv _ _ _ _ _ Hg Hh Hrun) as (holder & -> & _ & _ & _ & Hte & Hts).
    exists (time_time env), (previous :: earlier).
    cbn [checker] in Hte, Hts.
    repeat split; try assumption.
    change (time_elapsed (forwarded_bucket env recv holder))
      with (time_elapsed recv + (time_time env - timestamp recv))%float.
    rewrite Hstamp, Helapsed. reflexivity.
Qed.

(** C4, as the code has it.  A completed forwarding hop writes
    [time_elapsed = received.time_elapsed + (now - received.timestamp)] and
    [timestamp = now]; on every token of every lineage [time_elapsed] is the
    sum, from [0.0] on and in order, of the successive differences between the
    clock readings of its handlers, and [timestamp] is the latest reading; and
    across a hop of a lineage [time_elapsed] does not decrease whenever the
    holder's clock reading is not earlier than the received timestamp. *)
Theorem elapsed_time_accumulates :
  (forall env event s s' t m,
     data_message (unit_data event) = Some m -> m <> "" ->
     max_cycles_reached env s (unit_data event) = false ->
     handle env (PingReceiveRelationChanged event) s = (Normal tt, s', t) ->
     time_elapsed (send_bucket s') =
       (time_elapsed (unit_data event)
        + (time_time env - timestamp (unit_data event)))%float /\
     timestamp (send_bucket s') = time_time env) /\
  (forall clocks tok,
     lineage clocks tok ->
     time_elapsed tok = total (deltas clocks) /\
     timestamp tok = hd 0%float clocks) /\
  (forall clocks recv_bucket env s s' t,
     lineage clocks recv_bucket ->
     no_message (mkRelationChanged recv_bucket) = false ->
     max_cycles_reached env s recv_bucket = false ->
     handle env (PingReceiveRelationChanged (mkRelationChanged recv_bucket)) s
       = (Normal tt, s', t) ->
     (timestamp recv_bucket <=? time_time env)%float = true ->
     (time_elapsed recv_bucket <=? time_elapsed (send_bucket s'))%float = true).
Proof.
  split; [|split].
  - intros env event s s' t m Hm Hne Hh Hrun.
    destruct (forward_inv _ _ _ _ _ _ Hm Hne Hh Hrun)
      as (units & holder & rest & _ & _ & _ & _ & _ & _ & _ & -> & _).
    split; reflexivity.
  - intros clocks tok Hlin.
    destruct (lineage_clock _ _ Hlin) as (now & earlier & -> & Hstamp & Helapsed & _).
    split; assumption.
  - intros clocks recv env s s' t Hlin Hg Hh Hrun Hclock.
    destruct (lineage_clock _ _ Hlin) as (now & earlier & _ & _ & _ & Hte & Hts).
    destruct (hop_inv _ _ _ _ _ Hg Hh Hrun) as (holder & -> & _ & _ & _ & Hout & _).
    cbn [checker] in Hout.
    apply elapsed_not_less; assumption.
Qed.

Lemma token_from_B_is_forwarded :
  send_bucket (state_of B_receives) = token_from_B 10 110.
Proof. reflexivity. Qed.

Lemma lineage_token_from_B : lineage [110%float; 100%float] (token_from_B 10 110).
Proof. rewrite <- token_from_B_is_forwarded. exact lineage_after_B. Qed.

Lemma A_receives_completes now :
  (0 <=? 10 + (now - 110))%float = true -> (0 <=? now)%float = true ->
  A_receives now = (Normal tt, state_of (A_receives now), effects_of (A_receives now)).
Proof.
  intros Hte Hts. unfold A_receives.
  rewrite (forward_run (env_A None now) (mkRelationChanged (token_from_B 10 110))
             initial_state "hello" [unit_B] "b/0" []);
    try reflexivity; try discriminate; assumption.
Qed.

Lemma elapsed_time_accumulates_witness :
  (time_elapsed (send_bucket (state_of (A_receives 120))) = (10 + (120 - 110))%float /\
   timestamp (send_bucket (state_of (A_receives 120))) = 120%float) /\
  (time_elapsed (token_from_B 10 110) = (0 + (110 - 100))%float /\
   timestamp (token_from_B 10 110) = 110%float) /\
  (time_elapsed (token_from_B 10 110)
   <=? time_elapsed (send_bucket (state_of (A_receives 120))))%float = true.
Proof.
  destruct elapsed_time_accumulates as (Hhop & Hsum & Hmono).
  split; [|split].
  - apply (Hhop (env_A None 120%float) (mkRelationChanged (token_from_B 10 110))
             initial_state (state_of (A_receives 120)) (effects_of (A_receives 120))
             "hello").
    + reflexivity.
    + discriminate.
    + reflexivity.
    + apply A_receives_completes; reflexivity.
  - exact (Hsum _ _ lineage_token_from_B).
  - apply (Hmono [110%float; 100%float] (token_from_B 10 110) (env_A None 120%float)
             initial_state (state_of (A_receives 120)) (effects_of (A_receives 120))).
    + exact lineage_token_from_B.
    + reflexivity.
    + reflexivity.
    + apply A_receives_completes; reflexivity.
    + reflexivity.
Defined.

(** C4, as the claim has it, fails: [unit_A] injects at 100, [unit_B]
    forwards at 110 by its clock, and [unit_A], whose clock reads 105 when
    the token is back, writes an elapsed time of 5 after the 10 it received. *)
Lemma elapsed_time_decreases_counterexample :
  lineage [110%float; 100%float] (token_from_B 10 110) /\
  time_elapsed (token_from_B 10 110) = 10%float /\
  lineage [105%float; 110%float; 100%float] (send_bucket (state_of A_receives_early)) /\
  time_elapsed (send_bucket (state_of A_receives_early)) = 5%float /\
  (time_elapsed (send_bucket (state_of A_receives_early))
   <? time_elapsed (token_from_B 10 110))%float = true.
Proof.
  split; [exact lineage_token_from_B|].
  split; [reflexivity|].
  split; [|split; reflexivity].
  apply (lineage_forward [110%float; 100%float] (token_from_B 10 110)
           (env_A None 105%float) initial_state
           (state_of A_receives_early) (effects_of A_receives_early)).
  - exact lineage_token_from_B.
  - reflexivity.
  - reflexivity.
  - apply A_receives_completes; reflexivity.
Qed.


(* ================================================================= *)
(** ** The two-unit scenario *)

(** [unit_A] injects "hello" at 100; [unit_B], not the origin, forwards it at
    110; [unit_A], limited to one lap, halts at 120 without writing and
    reports the elapsed time [unit_B] wrote. *)
Example two_unit_ring_halts_after_one_lap :
  send_bucket (state_of A_injects) = token_from_A 100 /\
  send_bucket (state_of B_receives) = token_from_B 10 110 /\
  A_halts =
    (Normal tt,
     mkState empty_bucket
       (ActiveStatus
          [Text "Max cycles reached. Time to completion is ";
           FloatRepr 10%float; Text " seconds."])
       (mkStored (Some 1) 0),
     [Log [Text "RelationChanged event detected..."];
      Log [Text "Checking cycles complete..."];
      StatusSet
        (ActiveStatus
           [Text "Max cycles reached. Time to completion is ";
            FloatRepr 10%float; Text " seconds."])]).
Proof. repeat split; reflexivity. Qed.

(* ================================================================= *)
(** ** The cached configuration *)

Lemma opt_int_eqb_eq a b : opt_int_eqb a b = true <-> a = b.
Proof.
  destruct a as [x|], b as [y|]; cbn; try (split; congruence).
  rewrite Z.eqb_eq. split; congruence.
Qed.

(** The run of [_on_config_changed]. *)
Lemma config_changed_run env s :
  handle env ConfigChanged s =
    (Normal tt,
     mkState (send_bucket s) (status s)
       (mkStored (config_max_cycles (config env)) (config_delay (config env))),
     config_log (config env) (stored s)).
Proof.
  unfold handle, _on_config_changed, config_log.
  destruct s as [b st [limit d]]. cbn [send_bucket status stored max_cycles delay].
  destruct (opt_int_eqb (config_max_cycles (config env)) limit) eqn:Hlimit;
    destruct (config_delay (config env) =? d) eqn:Hdelay;
    eval_goal; cbn [max_cycles delay negb]; rewrite ?Hlimit, ?Hdelay;
    cbn [negb]; eval_goal; cbn [max_cycles delay]; rewrite ?Hdelay; cbn [negb];
    eval_goal; cbn [max_cycles delay];
    try apply opt_int_eqb_eq in Hlimit; try apply Z.eqb_eq in Hdelay;
    subst; reflexivity.
Qed.

(** X1.  [_on_config_changed] always completes and leaves the two stored
    tunables equal to the configuration's [max-cycles] and [delay]; it
    touches neither the bucket nor the status, and its only effects are one
    log line for each tunable whose stored value differed. *)
Theorem config_changed_caches_configuration env s :
  exists s' t,
    handle env ConfigChanged s = (Normal tt, s', t) /\
    max_cycles (stored s') = config_max_cycles (config env) /\
    delay (stored s') = config_delay (config env) /\
    send_bucket s' = send_bucket s /\
    status s' = status s /\
    t = (if opt_int_eqb (config_max_cycles (config env)) (max_cycles (stored s))
         then []
         else [Log [Text "Updating max cycles to ";
                    Text (str_opt_int (config_max_cycles (config env))); Text "."]])
        ++ (if config_delay (config env) =? delay (stored s) then []
            else [Log [Text "Updating total delay to ";
                       Text (str_int (config_delay (config env))); Text "."]]).
Proof.
  eexists _, _. split; [apply config_changed_run|].
  repeat split; reflexivity.
Qed.

(** X2.  A configuration that is already cached changes nothing and is not
    even logged; in particular a second [config-changed] event for the same
    configuration is silent. *)
Theorem config_changed_twice_is_silent env s :
  (stored s = mkStored (config_max_cycles (config env)) (config_delay (config env)) ->
   handle env ConfigChanged s = (Normal tt, s, [])) /\
  handle env ConfigChanged (state_of (handle env ConfigChanged s)) =
    (Normal tt, state_of (handle env ConfigChanged s), []).
Proof.
  assert (Hsame : forall s0,
            stored s0 = mkStored (config_max_cycles (config env))
                          (config_delay (config env)) ->
            handle env ConfigChanged s0 = (Normal tt, s0, [])).
  { intros [b st sto] Hsto. cbn in Hsto. subst sto.
    rewrite config_changed_run. unfold config_log.
    cbn [send_bucket status stored max_cycles delay].
    replace (opt_int_eqb (config_max_cycles (config env))
               (config_max_cycles (config env))) with true
      by (symmetry; apply opt_int_eqb_eq; reflexivity).
    rewrite Z.eqb_refl. reflexivity. }
  split; [apply Hsame|].
  apply Hsame. rewrite config_changed_run. reflexivity.
Qed.

(* ================================================================= *)
(** ** What the token handlers leave alone *)

Section Preserves.

Context {X A B : Type} (f : State -> X).

Lemma preserves_ret (a : A) : preserves f (ret a).
Proof. intros s. reflexivity. Qed.

Lemma preserves_raise (e : Exn) : preserves f (@raise A e).
Proof. intros s. reflexivity. Qed.

Lemma preserves_return : preserves f (@return_ A).
Proof. intros s. reflexivity. Qed.

Lemma preserves_bind (m : M A) (k : A -> M B) :
  preserves f m -> (forall a, preserves f (k a)) -> preserves f (bind m k).
Proof.
  intros Hm Hk s. specialize (Hm s). unfold bind, state_of in *.
  destruct (m s) as [[c s1] t1]. cbn in Hm.
  destruct c as [a| |e]; cbn; try assumption.
  specialize (Hk a s1). unfold state_of in Hk.
  destruct (k a s1) as [[d s2] t2]. cbn in *. congruence.
Qed.

End Preserves.

Lemma preserves_emit {X} (f : State -> X) e : preserves f (emit e).
Proof. intros s. reflexivity. Qed.

Lemma preserves_get_stored {X} (f : State -> X) : preserves f get_stored.
Proof. intros s. reflexivity. Qed.

Lemma preserves_get_send_bucket {X} (f : State -> X) : preserves f get_send_bucket.
Proof. intros s. reflexivity. Qed.

Lemma preserves_call {X} (f : State -> X) m : preserves f m -> preserves f (call m).
Proof.
  intros Hm s. specialize (Hm s). unfold call, state_of in *.
  destruct (m s) as [[c s1] t1]. destruct c; exact Hm.
Qed.

Lemma assign_keeps_stored a : preserves stored (assign a).
Proof. intros s. unfold assign. destruct (checker a); reflexivity. Qed.

Lemma assign_keeps_status a : preserves status (assign a).
Proof. intros s. unfold assign. destruct (checker a); reflexivity. Qed.

Lemma set_status_keeps_stored st : preserves stored (set_status st).
Proof. intros s. reflexivity. Qed.

#[local] Hint Resolve preserves_ret preserves_raise preserves_return preserves_emit
  preserves_get_stored preserves_get_send_bucket preserves_call
  assign_keeps_stored assign_keeps_status set_status_keeps_stored : blind.

Ltac keep_step :=
  match goal with
  | |- preserves _ (bind _ _) => apply preserves_bind; [|intros ?]
  | |- context [if ?c then _ else _] => destruct c
  | |- context [match ?o with Some _ => _ | None => _ end] => destruct o
  | |- context [match ?l with [] => _ | _ :: _ => _ end] => destruct l
  | |- _ => solve [unfold logger_info, time_sleep, pass; auto with blind]
  end.

(** X3.  Whatever their outcome, an exception included, the action handler
    and the relation handler leave the stored tunables as they were, and the
    action handler leaves the status as it was: only [_on_config_changed]
    writes the tunables. *)
Theorem token_handlers_keep_tunables env s :
  (forall event,
     stored (state_of (handle env (PingAction event) s)) = stored s /\
     status (state_of (handle env (PingAction event) s)) = status s) /\
  (forall event,
     stored (state_of (handle env (PingReceiveRelationChanged event) s)) = stored s).
Proof.
  split; [intros event; split|intros event].
  - revert s. change (preserves stored (handle env (PingAction event))).
    cbn [handle]. apply preserves_call.
    unfold _on_ping_action, target_names, item0, params_item. repeat keep_step.
  - revert s. change (preserves status (handle env (PingAction event))).
    cbn [handle]. apply preserves_call.
    unfold _on_ping_action, target_names, item0, params_item. repeat keep_step.
  - revert s. change (preserves stored (handle env (PingReceiveRelationChanged event))).
    cbn [handle]. apply preserves_call.
    unfold _on_ping_receive_relation_changed, target_names, item0. repeat keep_step.
Qed.

(* ================================================================= *)
(** ** A missing relation, a missing parameter *)

(** X4.  When the unit has no [ping-send] relation, [_on_ping_action] ends
    with the [AttributeError] of [r.units] before anything is written: the
    state is what it was and the only effect is the first log line, whether
    or not the action carries a token. *)
Theorem inject_without_relation env event s :
  ping_send env = None ->
  handle env (PingAction event) s =
    (Raised AttributeError, s,
     [Log [Text "Ping action event recieved. Starting..."]]).
Proof.
  intros Hrel. unfold handle, _on_ping_action.
  repeat step_goal. destruct s; reflexivity.
Qed.

(** X5.  When the relation exists but the action carries no [token],
    [_on_ping_action] ends with [KeyError("token")] before anything is
    written, also when the relation offers no candidate. *)
Theorem inject_without_token env event s units :
  ping_send env = Some units ->
  params_token event = None ->
  handle env (PingAction event) s =
    (Raised (KeyError "token"), s,
     [Log [Text "Ping action event recieved. Starting..."];
      Log [Text "Constructing token..."]]).
Proof.
  intros Hrel Htok. unfold handle, _on_ping_action.
  repeat step_goal. destruct s; reflexivity.
Qed.

(* ================================================================= *)
(** ** A token forwarded several times *)

(** The fields a completed hop leaves, read from what it received. *)
Lemma hop_fields env recv_bucket s s' t :
  no_message (mkRelationChanged recv_bucket) = false ->
  max_cycles_reached env s recv_bucket = false ->
  handle env (PingReceiveRelationChanged (mkRelationChanged recv_bucket)) s
    = (Normal tt, s', t) ->
  message (send_bucket s') = message recv_bucket /\
  origin (send_bucket s') = origin recv_bucket /\
  times_passed (send_bucket s') = times_passed recv_bucket + 1 /\
  times_received (send_bucket s') = times_received recv_bucket + 1 /\
  cycles_complete (send_bucket s') = cycles_out env recv_bucket.
Proof.
  intros Hg Hh Hrun.
  destruct (hop_inv _ _ _ _ _ Hg Hh Hrun) as (holder & -> & _).
  repeat split; reflexivity.
Qed.

Lemma forwarding_keeps_origin_aux envs first last :
  forwarded_through envs first last -> origin last = origin first.
Proof.
  induction 1 as [tok|envs first recv env s s' t Hthrough IH Hg Hh Hrun].
  - reflexivity.
  - destruct (hop_fields _ _ _ _ _ Hg Hh Hrun) as (_ & Ho & _). congruence.
Qed.

(** X7.  However often a token is forwarded, its message and its origin are
    those it started with. *)
Theorem forwarding_keeps_message_and_origin envs first last :
  forwarded_through envs first last ->
  message last = message first /\ origin last = origin first.
Proof.
  induction 1 as [tok|envs first recv env s s' t Hthrough [IHm IHo] Hg Hh Hrun].
  - split; reflexivity.
  - destruct (hop_fields _ _ _ _ _ Hg Hh Hrun) as (Hm & Ho & _).
    split; congruence.
Qed.

(** X8.  Both counters count the hops: after [n] forwardings [times_passed]
    and [times_received] are each [n] more than they were. *)
Theorem forwarding_counts_hops envs first last :
  forwarded_through envs first last ->
  times_passed last = times_passed first + Z.of_nat (length envs) /\
  times_received last = times_received first + Z.of_nat (length envs).
Proof.
  induction 1 as [tok|envs first recv env s s' t Hthrough [IHp IHr] Hg Hh Hrun].
  - cbn. lia.
  - destruct (hop_fields _ _ _ _ _ Hg Hh Hrun) as (_ & _ & Hp & Hr & _).
    cbn [length]. lia.
Qed.

(** X9.  The lap count counts the returns to the origin: after any number of
    forwardings [cycles_complete] has grown by the number of holders that
    are the token's origin. *)
Theorem forwarding_counts_returns_to_origin envs first last :
  forwarded_through envs first last ->
  cycles_complete last =
    cycles_complete first + Z.of_nat (returns_to (origin first) envs).
Proof.
  induction 1 as [tok|envs first recv env s s' t Hthrough IH Hg Hh Hrun].
  - cbn. lia.
  - destruct (hop_fields _ _ _ _ _ Hg Hh Hrun) as (_ & _ & _ & _ & Hc).
    pose proof (forwarding_keeps_origin_aux envs first recv Hthrough) as Ho.
    rewrite Hc. unfold cycles_out, returns_to. cbn [filter].
    rewrite Ho.
    destruct (origin first =? name (self_unit env))%string; cbn [length];
      fold (returns_to (origin first) envs); lia.
Qed.

(* ================================================================= *)
(** ** The next holder *)

Lemma candidates_first env units holder rest :
  candidates env units = holder :: rest ->
  exists before u after,
    units = before ++ u :: after /\
    name u = holder /\
    app u <> app (self_unit env) /\
    forall v, In v before -> app v = app (self_unit env).
Proof.
  unfold candidates.
  induction units as [|v units IH]; cbn [filter map]; [discriminate|].
  destruct (String.eqb_spec (app v) (app (self_unit env))) as [Heq|Hneq];
    cbn [negb map].
  - intros H. destruct (IH H) as (before & u & after & -> & Hu & Happ & Hbefore).
    exists (v :: before), u, after. repeat split; try assumption.
    intros w [<-|Hw]; auto.
  - intros H. injection H as Hname _.
    exists [], v, units. repeat split; try assumption.
    intros w [].
Qed.

(** X10.  The next holder a completed handler writes is the name of a unit of
    the [ping-send] relation that belongs to another application, the first
    such unit in the order the relation yields its units: the token is never
    addressed to a unit of the holder's own application. *)
Theorem next_holder_is_first_foreign_unit :
  (forall env event s s' t,
     handle env (PingAction event) s = (Normal tt, s', t) ->
     exists units before u after,
       ping_send env = Some units /\
       units = before ++ u :: after /\
       next_holder (send_bucket s') = name u /\
       app u <> app (self_unit env) /\
       forall v, In v before -> app v = app (self_unit env)) /\
  (forall env event s s' t m,
     data_message (unit_data event) = Some m -> m <> "" ->
     max_cycles_reached env s (unit_data event) = false ->
     handle env (PingReceiveRelationChanged event) s = (Normal tt, s', t) ->
     exists units before u after,
       ping_send env = Some units /\
       units = before ++ u :: after /\
       next_holder (send_bucket s') = name u /\
       app u <> app (self_unit env) /\
       forall v, In v before -> app v = app (self_unit env)).
Proof.
  split.
  - intros env event s s' t Hrun.
    apply inject_inv in Hrun
      as (token & units & holder & rest & _ & Hrel & Hcand & _ & -> & _).
    destruct (candidates_first _ _ _ _ Hcand)
      as (before & u & after & Hunits & Hname & Happ & Hbefore).
    exists units, before, u, after. repeat split; try assumption.
    symmetry. exact Hname.
  - intros env event s s' t m Hm Hne Hh Hrun.
    destruct (forward_inv _ _ _ _ _ _ Hm Hne Hh Hrun)
      as (units & holder & rest & Hrel & Hcand & _ & _ & _ & _ & _ & -> & _).
    destruct (candidates_first _ _ _ _ Hcand)
      as (before & u & after & Hunits & Hname & Happ & Hbefore).
    exists units, before, u, after. repeat split; try assumption.
    symmetry. exact Hname.
Qed.

(* ================================================================= *)
(** ** Forwarded or halted *)

(** X11.  A completed run on a token with a non-empty message has one of two
    outcomes.  It reports completion exactly when the token is back at its
    origin with the stored limit reached, and then writes nothing; otherwise
    it writes the bucket and the status it leaves is not the completion
    message. *)
Theorem completion_reported_exactly_at_limit env event s s' t m :
  data_message (unit_data event) = Some m -> m <> "" ->
  handle env (PingReceiveRelationChanged event) s = (Normal tt, s', t) ->
  (status s' = ActiveStatus (completion_message (unit_data event)) <->
   origin (unit_data event) = name (self_unit env) /\
   max_cycles (stored s) = Some (cycles_complete (unit_data event) + 1)) /\
  ((exists a, In (Write a) t) <->
   ~ (origin (unit_data event) = name (self_unit env) /\
      max_cycles (stored s) = Some (cycles_complete (unit_data event) + 1))).
Proof.
  intros Hm Hne Hrun.
  assert (Hiff : max_cycles_reached env s (unit_data event) = true <->
                 origin (unit_data event) = name (self_unit env) /\
                 max_cycles (stored s) = Some (cycles_complete (unit_data event) + 1)).
  { unfold max_cycles_reached.
    rewrite andb_true_iff, String.eqb_eq, opt_int_eqb_eq. reflexivity. }
  destruct (max_cycles_reached env s (unit_data event)) eqn:Hh.
  - rewrite (halt_run env event s m Hm Hne Hh) in Hrun.
    injection Hrun as <- <-. cbn [status]. split.
    + split; [intros _; apply Hiff; reflexivity|reflexivity].
    + split.
      * intros [a [H|[H|[H|[]]]]]; discriminate H.
      * intros Hnot. destruct Hnot. apply Hiff. reflexivity.
  - destruct (forward_inv _ _ _ _ _ _ Hm Hne Hh Hrun)
      as (units & holder & rest & _ & _ & _ & _ & _ & _ & _ & -> & ->).
    cbn [status]. split.
    + split; [discriminate|].
      intros Hcond. apply Hiff in Hcond. discriminate Hcond.
    + split.
      * intros _ Hcond. apply Hiff in Hcond. discriminate Hcond.
      * intros _. exists (Set_cycles_complete (cycles_out env (unit_data event))).
        unfold forwarded_effects. cbn. auto.
Qed.

(* ================================================================= *)
(** ** When the delay is slept *)

Ltac no_such_effect H :=
  cbn in H; repeat (destruct H as [H|H]; [discriminate H|]); destruct H.

(** X12.  A completed handler sleeps only for a positive stored delay, and
    then once.  [_on_ping_action] sleeps last, after the whole token is in the
    bucket; the forwarding path sleeps after it has written the lap count and
    shown the snapshot, and before it writes the other fields of the token. *)
Theorem delay_is_slept_after_injecting_before_forwarding :
  (forall env event s s' t,
     handle env (PingAction event) s = (Normal tt, s', t) ->
     (0 < delay (stored s) ->
      exists before,
        t = before ++ [Sleep (delay (stored s))] /\
        forall d, ~ In (Sleep d) before) /\
     (delay (stored s) <= 0 -> forall d, ~ In (Sleep d) t)) /\
  (forall env event s s' t m,
     data_message (unit_data event) = Some m -> m <> "" ->
     max_cycles_reached env s (unit_data event) = false ->
     handle env (PingReceiveRelationChanged event) s = (Normal tt, s', t) ->
     (0 < delay (stored s) ->
      exists before after,
        t = before ++ Sleep (delay (stored s)) :: after /\
        (forall a, In (Write a) before ->
                   a = Set_cycles_complete (cycles_out env (unit_data event))) /\
        In (StatusSet (ActiveStatus (snapshot_message (unit_data event)))) before /\
        In (Write (Set_message m)) after /\
        In (Write (Set_timestamp (time_time env))) after /\
        (forall d, ~ In (Sleep d) before) /\
        (forall d, ~ In (Sleep d) after)) /\
     (delay (stored s) <= 0 -> forall d, ~ In (Sleep d) t)).
Proof.
  split.
  - intros env event s s' t Hrun.
    apply inject_inv in Hrun
      as (token & units & holder & rest & _ & _ & _ & _ & _ & ->).
    unfold injected_effects. split.
    + intros Hd. apply Z.ltb_lt in Hd. rewrite Hd.
      eexists. split; [reflexivity|].
      intros d H. no_such_effect H.
    + intros Hd. apply Z.ltb_ge in Hd. rewrite Hd.
      intros d H. no_such_effect H.
  - intros env event s s' t m Hm Hne Hh Hrun.
    destruct (forward_inv _ _ _ _ _ _ Hm Hne Hh Hrun)
      as (units & holder & rest & _ & _ & _ & _ & _ & _ & _ & _ & ->).
    unfold forwarded_effects.
    assert (Hmsg : message (unit_data event) = m) by (unfold message; now rewrite Hm).
    rewrite Hmsg. split.
    + intros Hd. apply Z.ltb_lt in Hd. rewrite Hd.
      exists [Log [Text "RelationChanged event detected..."];
              Log [Text "Checking cycles complete..."];
              Write (Set_cycles_complete (cycles_out env (unit_data event)));
              Log [Text "Updating token and sending to next holder..."];
              StatusSet (ActiveStatus (snapshot_message (unit_data event)))].
      eexists. split; [reflexivity|].
      split; [|split; [|split; [|split; [|split]]]].
      * intros a H. cbn in H.
        destruct H as [H|[H|[H|[H|[H|[]]]]]]; try discriminate H.
        injection H as <-. reflexivity.
      * cbn. auto 6.
      * cbn. auto.
      * destruct (origin (unit_data event) =? name (self_unit env))%string;
          cbn; auto 10.
      * intros d H. no_such_effect H.
      * intros d H.
        destruct (origin (unit_data event) =? name (self_unit env))%string;
          no_such_effect H.
    + intros Hd. apply Z.ltb_ge in Hd. rewrite Hd.
      intros d H.
      destruct (origin (unit_data event) =? name (self_unit env))%string;
        no_such_effect H.
Qed.

(* ================================================================= *)
(** ** The limit is the cached one *)

(** X13.  The token handlers read the stored tunables, never the
    configuration itself: with another configuration in force they run
    exactly alike.  A new [max-cycles] takes effect through the
    [config-changed] event: once that event has been handled, a token back at
    its origin with the configured number of laps completed halts the run. *)
Theorem limit_applies_once_cached :
  (forall c env event s,
     handle (with_config c env) (PingAction event) s =
       handle env (PingAction event) s) /\
  (forall c env event s,
     handle (with_config c env) (PingReceiveRelationChanged event) s =
       handle env (PingReceiveRelationChanged event) s) /\
  (forall env_c env event s m,
     data_message (unit_data event) = Some m -> m <> "" ->
     origin (unit_data event) = name (self_unit env) ->
     config_max_cycles (config env_c) = Some (cycles_complete (unit_data event) + 1) ->
     handle env (PingReceiveRelationChanged event)
       (state_of (handle env_c ConfigChanged s)) =
       (Normal tt,
        mkState (send_bucket s)
          (ActiveStatus (completion_message (unit_data event)))
          (mkStored (config_max_cycles (config env_c)) (config_delay (config env_c))),
        halted_effects (unit_data event))).
Proof.
  split; [|split].
  - intros c env event s. reflexivity.
  - intros c env event s. reflexivity.
  - intros env_c env event s m Hm Hne Horigin Hlimit.
    rewrite config_changed_run. cbn [state_of fst snd].
    rewrite (halt_run env event _ m Hm Hne); [reflexivity|].
    unfold max_cycles_reached. cbn [stored max_cycles].
    rewrite Horigin, String.eqb_refl, Hlimit. cbn. apply Z.eqb_refl.
Qed.

(* ================================================================= *)
(** ** A clock that is not behind: the token is forwarded *)

Section IEEEFinite.

Variables prec emax : Z.



End IEEEFinite.



(* ================================================================= *)
(** ** Instances *)

Lemma inject_without_relation_witness :
  handle (env_unrelated 100%float) (PingAction (mkAction (Some "hello"))) initial_state =
    (Raised AttributeError, initial_state,
     [Log [Text "Ping action event recieved. Starting..."]]).
Proof.
  apply (inject_without_relation (env_unrelated 100%float)
           (mkAction (Some "hello")) initial_state).
  reflexivity.
Defined.

Lemma inject_without_token_witness :
  handle (env_A None 100%float) (PingAction (mkAction None)) initial_state =
    (Raised (KeyError "token"), initial_state,
     [Log [Text "Ping action event recieved. Starting..."];
      Log [Text "Constructing token..."]]).
Proof.
  apply (inject_without_token (env_A None 100%float) (mkAction None) initial_state
           [unit_B]); reflexivity.
Defined.

Lemma two_hops :
  forwarded_through [env_A None 120%float; env_B None 110%float]
    (token_from_A 100) (send_bucket (state_of (A_receives 120))).
Proof.
  apply (through_hop [env_B None 110%float] (token_from_A 100) (token_from_B 10 110)
           (env_A None 120%float) initial_state
           (state_of (A_receives 120)) (effects_of (A_receives 120))).
  - rewrite <- token_from_B_is_forwarded.
    apply (through_hop [] (token_from_A 100) (token_from_A 100)
             (env_B None 110%float) initial_state
             (state_of B_receives) (effects_of B_receives)).
    + apply through_none.
    + reflexivity.
    + reflexivity.
    + exact B_receives_completes.
  - reflexivity.
  - reflexivity.
  - apply A_receives_completes; reflexivity.
Qed.

Lemma forwarding_keeps_message_and_origin_witness :
  message (send_bucket (state_of (A_receives 120))) = "hello" /\
  origin (send_bucket (state_of (A_receives 120))) = "a/0".
Proof.
  exact (forwarding_keeps_message_and_origin _ _ _ two_hops).
Defined.

Lemma forwarding_counts_hops_witness :
  times_passed (send_bucket (state_of (A_receives 120))) = 1 + 2 /\
  times_received (send_bucket (state_of (A_receives 120))) = 0 + 2.
Proof.
  exact (forwarding_counts_hops _ _ _ two_hops).
Defined.

Lemma forwarding_counts_returns_to_origin_witness :
  cycles_complete (send_bucket (state_of (A_receives 120))) = 0 + 1.
Proof.
  exact (forwarding_counts_returns_to_origin _ _ _ two_hops).
Defined.

Lemma A_halts_completes :
  A_halts = (Normal tt, state_of A_halts, effects_of A_halts).
Proof. reflexivity. Qed.

Lemma completion_reported_exactly_at_limit_witness :
  (status (state_of A_halts) = ActiveStatus (completion_message (token_from_B 10 110)) <->
   origin (token_from_B 10 110) = name unit_A /\
   Some 1 = Some (cycles_complete (token_from_B 10 110) + 1)) /\
  ((exists a, In (Write a) (effects_of A_halts)) <->
   ~ (origin (token_from_B 10 110) = name unit_A /\
      Some 1 = Some (cycles_complete (token_from_B 10 110) + 1))).
Proof.
  apply (completion_reported_exactly_at_limit (env_A (Some 1) 120%float)
           (mkRelationChanged (token_from_B 10 110)) (state_with_limit (Some 1))
           (state_of A_halts) (effects_of A_halts) "hello").
  - reflexivity.
  - discriminate.
  - exact A_halts_completes.
Defined.


Lemma next_holder_is_first_foreign_unit_witness :
  (exists units before u after,
     Some [unit_B] = Some units /\
     units = before ++ u :: after /\
     next_holder (send_bucket (state_of A_injects)) = name u /\
     app u <> app unit_A /\
     forall v, In v before -> app v = app unit_A) /\
  (exists units before u after,
     Some [unit_A] = Some units /\
     units = before ++ u :: after /\
     next_holder (send_bucket (state_of B_receives)) = name u /\
     app u <> app unit_B /\
     forall v, In v before -> app v = app unit_B).
Proof.
  destruct next_holder_is_first_foreign_unit as [Hinject Hforward].
  split.
  - exact (Hinject (env_A None 100%float) (mkAction (Some "hello")) initial_state
             _ _ A_injects_completes).
  - refine (Hforward (env_B None 110%float) (mkRelationChanged (token_from_A 100))
              initial_state _ _ "hello" _ _ _ B_receives_completes).
    + reflexivity.
    + discriminate.
    + reflexivity.
Defined.

Lemma A_injects_delayed_completes :
  A_injects_delayed =
    (Normal tt, state_of A_injects_delayed, effects_of A_injects_delayed).
Proof. vm_compute. reflexivity. Qed.

Lemma B_receives_delayed_completes :
  B_receives_delayed =
    (Normal tt, state_of B_receives_delayed, effects_of B_receives_delayed).
Proof. vm_compute. reflexivity. Qed.

Lemma delay_is_slept_after_injecting_before_forwarding_witness :
  (exists before,
     effects_of A_injects_delayed = before ++ [Sleep 2] /\
     forall d, ~ In (Sleep d) before) /\
  (exists before after,
     effects_of B_receives_delayed = before ++ Sleep 2 :: after /\
     (forall a, In (Write a) before -> a = Set_cycles_complete 0) /\
     In (StatusSet (ActiveStatus (snapshot_message (token_from_A 100)))) before /\
     In (Write (Set_message "hello")) after /\
     In (Write (Set_timestamp 110%float)) after /\
     (forall d, ~ In (Sleep d) before) /\
     (forall d, ~ In (Sleep d) after)).
Proof.
  destruct delay_is_slept_after_injecting_before_forwarding as [Hinject Hforward].
  split.
  - apply (Hinject (env_A None 100%float) (mkAction (Some "hello")) state_delayed
             _ _ A_injects_delayed_completes).
    reflexivity.
  - refine (proj1 (Hforward (env_B None 110%float)
                     (mkRelationChanged (token_from_A 100)) state_delayed _ _ "hello"
                     _ _ _ B_receives_delayed_completes) _).
    + reflexivity.
    + discriminate.
    + reflexivity.
    + reflexivity.
Defined.

Lemma limit_applies_once_cached_witness :
  handle (env_A None 120%float)
    (PingReceiveRelationChanged (mkRelationChanged (token_from_B 10 110)))
    (state_of (handle (env_A (Some 1) 115%float) ConfigChanged initial_state)) =
    (Normal tt,
     mkState empty_bucket
       (ActiveStatus (completion_message (token_from_B 10 110)))
       (mkStored (Some 1) 0),
     halted_effects (token_from_B 10 110)).
Proof.
  destruct limit_applies_once_cached as (_ & _ & Hlimit).
  apply (Hlimit (env_A (Some 1) 115%float) (env_A None 120%float)
           (mkRelationChanged (token_from_B 10 110)) initial_state "hello").
  - reflexivity.
  - discriminate.
  - reflexivity.
  - reflexivity.
Defined.

(* ================================================================= *)
(** ** Laps of the two-unit ring *)

Lemma ring_B_forwards limit laps b :
  0 <= laps -> stored b = mkStored limit 0 ->
  handle (env_B limit 100%float)
    (PingReceiveRelationChanged (mkRelationChanged (ring_token_at_A laps))) b =
    (Normal tt, mkState (ring_token_at_B laps) (ActiveStatus []) (mkStored limit 0),
     forwarded_effects (env_B limit 100%float) b (ring_token_at_A laps) "a/0").
Proof.
  intros Hlaps Hstored.
  rewrite (forward_run (env_B limit 100%float) (mkRelationChanged (ring_token_at_A laps))
             b "hello" [unit_A] "a/0" []);
    try reflexivity; try discriminate;
    try (cbn -[Z.mul Z.add Z.leb]; apply Z.leb_le; lia).
  assert (Hb : forwarded_bucket (env_B limit 100%float) (ring_token_at_A laps) "a/0"
               = ring_token_at_B laps)
    by (unfold forwarded_bucket, ring_token_at_B; cbn -[Z.mul Z.add];
        f_equal; f_equal; lia).
  cbn [unit_data]. rewrite Hb, Hstored. reflexivity.
Qed.

Lemma ring_A_forwards limit laps a :
  0 <= laps -> stored a = mkStored limit 0 -> limit <> Some (laps + 1) ->
  handle (env_A limit 100%float)
    (PingReceiveRelationChanged (mkRelationChanged (ring_token_at_B laps))) a =
    (Normal tt, mkState (ring_token_at_A (laps + 1)) (ActiveStatus []) (mkStored limit 0),
     forwarded_effects (env_A limit 100%float) a (ring_token_at_B laps) "b/0").
Proof.
  intros Hlaps Hstored Hlimit.
  assert (Hh : max_cycles_reached (env_A limit 100%float) a (ring_token_at_B laps) = false).
  { unfold max_cycles_reached. rewrite Hstored. cbn [stored max_cycles].
    destruct (opt_int_eqb limit (Some (cycles_complete (ring_token_at_B laps) + 1)))
      eqn:Heq; [|apply andb_false_r].
    apply opt_int_eqb_eq in Heq. contradiction. }
  rewrite (forward_run (env_A limit 100%float) (mkRelationChanged (ring_token_at_B laps))
             a "hello" [unit_B] "b/0" []);
    try reflexivity; try discriminate; try exact Hh;
    try (cbn -[Z.mul Z.add Z.leb]; apply Z.leb_le; lia).
  assert (Hb : forwarded_bucket (env_A limit 100%float) (ring_token_at_B laps) "b/0"
               = ring_token_at_A (laps + 1))
    by (unfold forwarded_bucket, ring_token_at_A; cbn -[Z.mul Z.add];
        f_equal; f_equal; lia).
  cbn [unit_data]. rewrite Hb, Hstored. reflexivity.
Qed.

Lemma ring_two_steps limit n :
  ring limit (2 * S n) =
    ring_step limit false (ring_step limit true (ring limit (2 * n))).
Proof.
  replace (2 * S n)%nat with (S (S (2 * n))) by lia.
  cbn [ring].
  replace (Nat.even (S (2 * n))) with false
    by (symmetry; rewrite Nat.even_succ, <- Nat.negb_even, Nat.even_mul; reflexivity).
  replace (Nat.even (2 * n)) with true
    by (symmetry; rewrite Nat.even_mul; reflexivity).
  reflexivity.
Qed.

Lemma ring_laps limit n :
  (forall k, 1 <= k <= Z.of_nat n -> limit <> Some k) ->
  send_bucket (fst (ring limit (2 * n))) = ring_token_at_A (Z.of_nat n) /\
  stored (fst (ring limit (2 * n))) = mkStored limit 0 /\
  stored (snd (ring limit (2 * n))) = mkStored limit 0.
Proof.
  induction n as [|n IH]; intros Hlimit.
  - change (2 * 0)%nat with 0%nat. unfold ring, ring_start. cbn [fst snd].
    rewrite (inject_run (env_A limit 100%float) (mkAction (Some "hello"))
               (state_with_limit limit) "hello" [unit_B] "b/0" []) by reflexivity.
    repeat split.
  - destruct IH as (Hbucket & HstoredA & HstoredB); [intros k Hk; apply Hlimit; lia|].
    rewrite ring_two_steps.
    destruct (ring limit (2 * n)) as [a b]. cbn [fst snd] in *.
    unfold ring_step. cbn [fst snd].
    rewrite Hbucket, (ring_B_forwards limit (Z.of_nat n) b) by (lia || assumption).
    cbn [state_of fst snd send_bucket].
    rewrite (ring_A_forwards limit (Z.of_nat n) a)
      by (try lia; try assumption; apply Hlimit; lia).
    cbn [state_of fst snd send_bucket stored].
    replace (Z.of_nat (S n)) with (Z.of_nat n + 1) by lia.
    repeat split.
Qed.

(** X15.  In the two-unit ring the token keeps circulating as long as the
    stored limit is not reached: if the limit is none of [1 .. n] (unset, for
    one), then after [2 n] hops the bucket of [unit_A] holds the token with
    [n] laps completed, passed [2 n + 1] times and received [2 n] times. *)
Theorem ring_completes_laps limit n :
  (forall k, 1 <= k <= Z.of_nat n -> limit <> Some k) ->
  send_bucket (fst (ring limit (2 * n))) =
    mkBucket (Some "hello") (Some "a/0") (Some "b/0")
      (Some (Z.of_nat n)) (Some (2 * Z.of_nat n + 1)) (Some (2 * Z.of_nat n))
      (Some 0%float) (Some 100%float).
Proof.
  intros Hlimit. apply (ring_laps limit n Hlimit).
Qed.

(** X16.  With a stored limit of [n + 1] laps the two-unit ring halts at the
    end of lap [n + 1]: when the token comes back to [unit_A] after
    [2 n + 1] hops with [n] laps completed, [unit_A] reports completion and
    writes nothing, its bucket still holding the token it wrote a lap
    earlier. *)
Theorem ring_halts_at_limit n :
  handle (env_A (Some (Z.of_nat n + 1)) 100%float)
    (PingReceiveRelationChanged
       (mkRelationChanged
          (send_bucket (snd (ring (Some (Z.of_nat n + 1)) (S (2 * n)))))))
    (fst (ring (Some (Z.of_nat n + 1)) (S (2 * n)))) =
    (Normal tt,
     mkState (ring_token_at_A (Z.of_nat n))
       (ActiveStatus
          [Text "Max cycles reached. Time to completion is ";
           FloatRepr 0%float; Text " seconds."])
       (mkStored (Some (Z.of_nat n + 1)) 0),
     [Log [Text "RelationChanged event detected..."];
      Log [Text "Checking cycles complete..."];
      StatusSet
        (ActiveStatus
           [Text "Max cycles reached. Time to completion is ";
            FloatRepr 0%float; Text " seconds."])]).
Proof.
  set (limit := Some (Z.of_nat n + 1)).
  destruct (ring_laps limit n) as (Hbucket & HstoredA & HstoredB).
  { intros k Hk. unfold limit. intros H. injection H as H. lia. }
  cbn [ring].
  replace (Nat.even (2 * n)) with true
    by (symmetry; rewrite Nat.even_mul; reflexivity).
  destruct (ring limit (2 * n)) as [a b]. cbn [fst snd] in *.
  unfold ring_step. cbn [fst snd].
  rewrite Hbucket, (ring_B_forwards limit (Z.of_nat n) b) by (lia || assumption).
  cbn [state_of fst snd send_bucket].
  rewrite (halt_run (env_A limit 100%float) (mkRelationChanged (ring_token_at_B (Z.of_nat n)))
             a "hello"); try reflexivity; try discriminate.
  - rewrite Hbucket, HstoredA. reflexivity.
  - unfold max_cycles_reached. rewrite HstoredA. cbn. apply Z.eqb_refl.
Qed.

Lemma ring_completes_laps_witness :
  send_bucket (fst (ring None (2 * 3))) =
    mkBucket (Some "hello") (Some "a/0") (Some "b/0")
      (Some 3) (Some 7) (Some 6) (Some 0%float) (Some 100%float).
Proof.
  apply (ring_completes_laps None 3).
  intros k _. discriminate.
Defined.
